(** * Solar-energy prediction notebook: a shallow embedding

    The notebook [Project_EnergyData.ipynb] is a straight line of library
    calls: CSV rows are loaded into a document store, read back into tables,
    cleaned by forward-fill, used to train three regressors, evaluated by
    three metrics and shown by a Dash callback.

    The embedding follows the notebook cell by cell.  Tables are ordered
    association lists of named columns, documents are ordered association
    lists of fields, the dictionary [models] is the list of its items in
    insertion order, the dictionaries [predictions] and [results] are
    finite maps keyed by strings, numbers are IEEE binary64 values
    ([spec_float] at precision 53), and what Python raises is an [option]
    or an explicit outcome. *)

From Stdlib Require Import ZArith List SpecFloat QArith Qabs Qpower.
From stdpp Require Import gmap strings list.

Local Open Scope string_scope.
Local Open Scope nat_scope.
Local Open Scope list_scope.

(** ** Binary64 arithmetic *)

Module Float64.

Definition float := spec_float.

Definition prec : Z := 53.
Definition emax : Z := 1024.

Definition fadd : float -> float -> float := SFadd prec emax.
Definition fsub : float -> float -> float := SFsub prec emax.
Definition fmul : float -> float -> float := SFmul prec emax.
Definition fdiv : float -> float -> float := SFdiv prec emax.
Definition fsqrt : float -> float := SFsqrt prec emax.
Definition fabs : float -> float := SFabs.

(** Conversion of a Python int to a float. *)
Definition of_Z (n : Z) : float := binary_normalize prec emax n 0 false.
Definition of_nat (n : nat) : float := of_Z (Z.of_nat n).

Definition pzero : float := S754_zero false.
Definition nan : float := S754_nan.
Definition pinf : float := S754_infinity false.

Definition is_nan (x : float) : bool :=
  match x with S754_nan => true | _ => false end.

Definition is_zero (x : float) : bool :=
  match x with S754_zero _ => true | _ => false end.

(** [math.isfinite] / [numpy.isfinite]. *)
Definition is_finite (x : float) : bool :=
  match x with
  | S754_zero _ | S754_finite _ _ _ => true
  | S754_infinity _ | S754_nan => false
  end.

(** [math.ceil] of a float, as a Python int; it raises on an infinity or
    a NaN. *)
Definition ceil (x : float) : option Z :=
  match x with
  | S754_zero _ => Some 0%Z
  | S754_finite s m e =>
      let a := if s then Z.neg m else Z.pos m in
      Some (match e with
            | Z.neg p => (- ((- a) / Z.pow_pos 2 p))%Z
            | _ => (a * 2 ^ e)%Z
            end)
  | _ => None
  end.

(** [ndarray.sum] of a one-dimensional array: the reduction starts from
    the first element.  NumPy adds long arrays pairwise; the order of the
    additions plays no role in what is proved below, and for fewer than
    eight elements it is the left-to-right order written here. *)
Definition fsum (xs : list float) : float :=
  match xs with
  | [] => pzero
  | x :: rest => fold_left fadd rest x
  end.

End Float64.

Import Float64.

(** ** Tables *)

(** A value of a table cell or of a document field. *)
Inductive value :=
| VFloat (f : float)
| VStr (s : string)
| VOid (n : N).          (* an ObjectId assigned by the store *)

#[global] Instance spec_float_eq_dec : EqDecision spec_float.
Proof. solve_decision. Defined.

#[global] Instance value_eq_dec : EqDecision value.
Proof. solve_decision. Defined.

(** A cell is [None] where pandas has a missing value (NaN or None). *)
Abbreviation cell := (option value).
Abbreviation Series := (list cell).

(** A [DataFrame] with the default [RangeIndex]: the number of rows and the
    columns in order. *)
Record DataFrame := mkDataFrame {
  df_index : nat;
  df_columns : list (string * Series)
}.

Definition column_names (df : DataFrame) : list string :=
  (df_columns df).*1.

Fixpoint assoc {A} (k : string) (l : list (string * A)) : option A :=
  match l with
  | [] => None
  | (k', v) :: rest => if decide (k = k') then Some v else assoc k rest
  end.

(** [df[name]]: the column, [KeyError] when there is none. *)
Definition get_column (df : DataFrame) (name : string) : option Series :=
  assoc name (df_columns df).

(** [df[names]]: the listed columns in the listed order, [KeyError] when one
    is absent. *)
Definition select (df : DataFrame) (names : list string) : option DataFrame :=
  cs ← mapM (λ n, c ← get_column df n; Some (n, c)) names;
  Some (mkDataFrame (df_index df) cs).

(** [df.drop(name, axis=1)]: [KeyError] when no column has the label. *)
Definition drop_column (name : string) (df : DataFrame) : option DataFrame :=
  if decide (name ∈ column_names df)
  then Some (mkDataFrame (df_index df)
               (filter (λ c, c.1 ≠ name) (df_columns df)))
  else None.

(** Forward fill of one column: a missing cell takes the last value seen
    above it, if any. *)
Fixpoint ffill_from {A} (last : option A) (col : list (option A))
  : list (option A) :=
  match col with
  | [] => []
  | c :: rest =>
      let cur := match c with Some v => Some v | None => last end in
      cur :: ffill_from cur rest
  end.

Definition ffill {A} (col : list (option A)) : list (option A) :=
  ffill_from None col.

Definition fill_column (c : string * Series) : string * Series :=
  (c.1, ffill c.2).

(** [df.fillna(method='ffill')]: every column is filled on its own. *)
Definition fillna_ffill (df : DataFrame) : DataFrame :=
  mkDataFrame (df_index df) (fill_column <$> df_columns df).

(** Documents and the rows of [to_dict('records')]: fields in order. *)
Abbreviation document := (list (string * cell)).

Definition field (k : string) (d : document) : cell :=
  default None (assoc k d).

(** Keys of a list of documents in the order of their first appearance. *)
Fixpoint keys_union (seen : list string) (ds : list document) : list string :=
  match ds with
  | [] => seen
  | d :: rest => keys_union (seen ++ list_difference (remove_dups d.*1) seen) rest
  end.

(** [pd.DataFrame(list_of_dicts)]: one row per document, one column per
    key; a document without the key has a missing cell there. *)
Definition DataFrame_of_records (ds : list document) : DataFrame :=
  mkDataFrame (length ds)
    ((λ k, (k, field k <$> ds)) <$> keys_union [] ds).

(** The assignment [d[k] = v] on a dictionary kept as the list of its
    items: a key already present keeps its place and takes the new value,
    a new key goes to the end. *)
Fixpoint dict_set {A} (k : string) (v : A) (d : list (string * A))
  : list (string * A) :=
  match d with
  | [] => [(k, v)]
  | (k', v') :: rest =>
      if decide (k = k') then (k', v) :: rest
      else (k', v') :: dict_set k v rest
  end.

(** The dictionary of one row, [dict(zip(columns, row))]: under a repeated
    label the last column wins. *)
Definition row_dict (cols : list (string * Series)) (i : nat) : document :=
  foldl (λ d (c : string * Series), dict_set c.1 (default None (c.2 !! i)) d)
        [] cols.

(** [df.to_dict('records')]: one dictionary per row; a table without
    columns has no row to iterate over and gives the empty list. *)
Definition to_dict_records (df : DataFrame) : list document :=
  match df_columns df with
  | [] => []
  | cols => row_dict cols <$> seq 0 (df_index df)
  end.

(** The preprocessing cell on one table: drop the identifier column, then
    forward-fill. *)
Definition clean (df : DataFrame) : option DataFrame :=
  fillna_ffill <$> drop_column "_id" df.

(** ** The document store *)

Inductive exn :=
| KeyError            (* a column label or dictionary key is absent *)
| TypeError           (* [insert_many] of an empty list *)
| BulkWriteError.     (* a duplicate [_id] *)

Inductive outcome := Returned | Raised (e : exn).

(** A collection: its documents in insertion order and the next
    identifier the driver will hand out. *)
Record Collection := mkCollection {
  docs : list document;
  next_oid : N
}.

Definition empty_collection : Collection := mkCollection [] 0.

Definition has_id (v : cell) (d : document) : bool :=
  bool_decide (assoc "_id" d = Some v).

(** The ordered bulk insert: a record without [_id] gets a fresh one, the
    identifier is stored first, and the insert stops at a duplicate. *)
Fixpoint insert_ordered (records : list document) (c : Collection) : Collection * outcome :=
  match records with
  | [] => (c, Returned)
  | r :: rest =>
      match assoc "_id" r with
      | None =>
          insert_ordered rest
            (mkCollection (docs c ++ [("_id", Some (VOid (next_oid c))) :: r])
                          (N.succ (next_oid c)))
      | Some v =>
          if existsb (has_id v) (docs c)
          then (c, Raised BulkWriteError)
          else insert_ordered rest
                 (mkCollection
                    (docs c ++ [("_id", v) :: filter (λ f, f.1 ≠ "_id") r])
                    (next_oid c))
      end
  end.

(** [collection.insert_many(records)]. *)
Definition insert_many (records : list document) (c : Collection) : Collection * outcome :=
  match records with
  | [] => (c, Raised TypeError)
  | _ => insert_ordered records c
  end.

(** [list(collection.find())]. *)
Definition find (c : Collection) : list document := docs c.

(** ** Ingestion *)

Definition columns : list string :=
  ["dtm"; "MIP"; "Solar_MW"; "Solar_capacity_mwp";
   "Solar_installedcapacity_mwp"; "SS_Price"; "boa_MWh"; "DA_Price"].

(** [import_csv_data]; the argument [csv] is what [pd.read_csv(file_path)]
    returned. *)
Definition import_csv_data (csv : DataFrame) (required_columns : list string) (collection : Collection)
  : Collection * outcome :=
  match select csv required_columns with
  | None => (collection, Raised KeyError)
  | Some df => insert_many (to_dict_records df) collection
  end.

(** A document without its identifier. *)
Definition without_id (d : document) : document :=
  filter (λ f, f.1 ≠ "_id") d.

(** ** Training *)

Definition features : list string :=
  ["MIP"; "Solar_capacity_mwp"; "Solar_installedcapacity_mwp";
   "SS_Price"; "boa_MWh"; "DA_Price"].

Definition target : string := "Solar_MW".

(** Conversion of a column to a float array; a missing cell is NaN and a
    text cell cannot be converted. *)
Definition cell_to_float (c : cell) : option float :=
  match c with
  | None => Some nan
  | Some (VFloat f) => Some f
  | Some _ => None
  end.

Definition series_to_floats (s : Series) : option (list float) :=
  mapM cell_to_float s.

(** A feature array, column by column. *)
Abbreviation array := (list (list float)).

Definition to_array (df : DataFrame) : option array :=
  mapM (λ c, series_to_floats c.2) (df_columns df).

Inductive regressor := LinearRegression | RandomForestRegressor | SVR.

(** What the notebook takes from scikit-learn, NumPy and Python without
    defining it: the shuffle of [train_test_split] under [random_state=42],
    the per-column statistics of [StandardScaler.fit], the three estimators
    with their [fit] and [predict], the process-wide random state that
    estimators built without [random_state] draw from, and the text of a
    float in an f-string. *)
Class Externals := {
  permutation : nat → list nat;
  column_mean : list float → float;
  column_scale : list float → float;
  rng : Type;
  estimator : Type;
  fit : regressor → rng → array → list float → option (estimator * rng);
  predict : estimator → array → option (list float);
  float_str : float → string
}.

(** The literal [0.2]. *)
Definition test_size : float := Eval vm_compute in fdiv (of_Z 1) (of_Z 5).

Definition take_rows {A} (idx : list nat) (col : list A) : option (list A) :=
  mapM (λ i, col !! i) idx.

(** [X.iloc[idx]] on a table. *)
Definition iloc (df : DataFrame) (idx : list nat) : option DataFrame :=
  cs ← mapM (λ c : string * Series, s ← take_rows idx c.2; Some (c.1, s))
            (df_columns df);
  Some (mkDataFrame (length idx) cs).

(** [train_test_split(X, y, test_size=0.2, random_state=42)]: the test part
    is the first [ceil(0.2 * n)] entries of the shuffle, the training part
    the rest; an empty training part raises. *)
Definition train_test_split `{Externals} (X : DataFrame) (y : Series)
  : option (DataFrame * DataFrame * Series * Series) :=
  let n := df_index X in
  if decide (length y = n) then
    n_test ← Z.to_nat <$> ceil (fmul test_size (of_nat n));
    let n_train := n - n_test in
    if decide (n_train = 0) then None
    else
      let p := permutation n in
      let ind_test := take n_test p in
      let ind_train := take n_train (drop n_test p) in
      X_tr ← iloc X ind_train;
      X_va ← iloc X ind_test;
      y_tr ← take_rows ind_train y;
      y_va ← take_rows ind_test y;
      Some (X_tr, X_va, y_tr, y_va)
  else None.

(** The fitted attributes of a [StandardScaler]. *)
Record ScalerParams := mkScalerParams {
  mean_ : list float;
  scale_ : list float
}.

(** A call received by the scaler, with the column labels of its argument. *)
Inductive scaler_call :=
| CallFit (labels : list string)
| CallTransform (labels : list string).

(** The scaler object: its fitted attributes, if any, and the history of
    the calls made on it (a ghost field, kept for the statements). *)
Record StandardScaler := mkStandardScaler {
  params : option ScalerParams;
  calls : list scaler_call
}.

Definition new_scaler : StandardScaler := mkStandardScaler None [].

Definition standardize (p : ScalerParams) (X : array) : array :=
  zip_with (λ col ms, (λ x, fdiv (fsub x ms.1) ms.2) <$> col)
           X (zip (mean_ p) (scale_ p)).

(** [scaler.fit(X)]. *)
Definition scaler_fit `{Externals} (sc : StandardScaler) (X : DataFrame)
  : option StandardScaler :=
  a ← to_array X;
  Some (mkStandardScaler
          (Some (mkScalerParams (column_mean <$> a) (column_scale <$> a)))
          (calls sc ++ [CallFit (column_names X)])).

(** [scaler.transform(X)]: it needs a fitted scaler and as many columns as
    were fitted, and leaves the fitted attributes alone. *)
Definition scaler_transform (sc : StandardScaler) (X : DataFrame)
  : option (StandardScaler * array) :=
  p ← params sc;
  a ← to_array X;
  if decide (length a = length (mean_ p)) then
    Some (mkStandardScaler (params sc)
            (calls sc ++ [CallTransform (column_names X)]),
          standardize p a)
  else None.

(** [scaler.fit_transform(X)] is [scaler.fit(X).transform(X)]. *)
Definition scaler_fit_transform `{Externals} (sc : StandardScaler)
    (X : DataFrame) : option (StandardScaler * array) :=
  sc' ← scaler_fit sc X;
  scaler_transform sc' X.

(** The dictionary [models], in insertion order. *)
Definition models : list (string * regressor) :=
  [("lr", LinearRegression); ("rf", RandomForestRegressor); ("svm", SVR)].

(** The loop [for model_name, model in models.items(): model.fit(X, y)],
    over any ordering [ms] of the dictionary. *)
Fixpoint fit_models `{Externals} (ms : list (string * regressor)) (g : rng)
    (X : array) (y : list float) : option (list (string * estimator) * rng) :=
  match ms with
  | [] => Some ([], g)
  | (name, m) :: rest =>
      '(e, g') ← fit m g X y;
      '(es, g'') ← fit_models rest g' X y;
      Some ((name, e) :: es, g'')
  end.

(** The globals the training cell leaves behind. *)
Record Training `{Externals} := mkTraining {
  X_train : DataFrame;
  y_train : Series;
  X_train_split : DataFrame;
  X_valid_split : DataFrame;
  y_train_split : Series;
  y_valid_split : Series;
  scaler : StandardScaler;
  X_train_scaled : array;
  X_valid_scaled : array;
  fitted_models : list (string * estimator);
  rng_after : rng
}.

(** The training cell. *)
Definition training `{Externals} (g : rng) (data_train : DataFrame)
  : option Training :=
  X ← select data_train features;
  y ← get_column data_train target;
  '(X_tr, X_va, y_tr, y_va) ← train_test_split X y;
  '(sc1, X_tr_scaled) ← scaler_fit_transform new_scaler X_tr;
  '(sc2, X_va_scaled) ← scaler_transform sc1 X_va;
  y_arr ← series_to_floats y_tr;
  '(ms, g') ← fit_models models g X_tr_scaled y_arr;
  Some (mkTraining _ X y X_tr X_va y_tr y_va sc2 X_tr_scaled X_va_scaled ms g').

(** ** Evaluation *)

(** [sklearn.metrics.mean_squared_error] on one-dimensional inputs: the
    mean of the squared differences; it raises on inputs of different or
    zero length and on a NaN or an infinity in either input. *)
Definition mean_squared_error (y_true y_pred : list float) : option float :=
  if decide (length y_true = length y_pred) then
    match y_true with
    | [] => None
    | _ =>
        if forallb is_finite y_true && forallb is_finite y_pred then
          Some (fdiv (fsum ((λ d, fmul d d) <$> zip_with fsub y_true y_pred))
                     (of_nat (length y_true)))
        else None
    end
  else None.

(** [math.sqrt]: a negative argument raises. *)
Definition math_sqrt (x : float) : option float :=
  match x with
  | S754_finite true _ _ | S754_infinity true => None
  | _ => Some (fsqrt x)
  end.

(** [np.mean] of a pandas [Series] is [Series.mean()], which skips missing
    entries: NaN entries count as zero in the sum and are left out of the
    count, and a series without a valid entry has mean NaN. *)
Definition nanmean (xs : list float) : float :=
  let count := length (filter (λ x, is_nan x = false) xs) in
  let values := (λ x, if is_nan x then pzero else x) <$> xs in
  if decide (count = 0) then nan else fdiv (fsum values) (of_nat count).

Definition hundred : float := Eval vm_compute in of_Z 100.

(** [np.mean(np.abs((y_test - preds) / y_test)) * 100]. *)
Definition mape (y_test preds : list float) : float :=
  fmul (nanmean (fabs <$> zip_with fdiv (zip_with fsub y_test preds) y_test))
       hundred.

Record Metrics := mkMetrics {
  RMSE : float;
  MSE : float;
  MAPE : float
}.

(** The body of the metrics loop for one model. *)
Definition metrics_of (y_test preds : list float) : option Metrics :=
  m1 ← mean_squared_error y_test preds;
  rmse ← math_sqrt m1;
  mse ← mean_squared_error y_test preds;
  Some (mkMetrics rmse mse (mape y_test preds)).

(** [{name: model.predict(X) for name, model in models.items()}], as the
    list of its items. *)
Definition predict_all `{Externals} (ms : list (string * estimator))
    (X : array) : option (list (string * list float)) :=
  mapM (λ m : string * estimator, p ← predict m.2 X; Some (m.1, p)) ms.

(** The loop filling [results]. *)
Definition evaluate_all (y_test : list float)
    (ps : list (string * list float)) : option (list (string * Metrics)) :=
  mapM (λ p : string * list float, r ← metrics_of y_test p.2; Some (p.1, r)) ps.

(** A dictionary built by assigning the items in order. *)
Definition dict_of {A} (items : list (string * A)) : gmap string A :=
  foldl (λ d kv, <[kv.1 := kv.2]> d) ∅ items.

(** The globals the evaluation cell leaves behind; [y_test] is kept as the
    float array the metrics and the chart read. *)
Record Evaluation := mkEvaluation {
  X_test : DataFrame;
  y_test : list float;
  test_scaler : StandardScaler;
  X_test_scaled : array;
  predictions : gmap string (list float);
  results : gmap string Metrics
}.

(** The evaluation cell. *)
Definition evaluation `{Externals} (tr : Training) (data_test : DataFrame)
  : option Evaluation :=
  X ← select data_test features;
  ys ← get_column data_test target;
  '(sc, X_scaled) ← scaler_transform (scaler tr) X;
  ps ← predict_all (fitted_models tr) X_scaled;
  y ← series_to_floats ys;
  rs ← evaluate_all y ps;
  Some (mkEvaluation X y sc X_scaled (dict_of ps) (dict_of rs)).

(** ** Dashboard *)

Record Scatter := mkScatter {
  sc_x : list nat;
  sc_y : list float;
  sc_mode : string;
  sc_name : string
}.

Record Layout := mkLayout {
  title : string;
  xaxis_title : string;
  yaxis_title : string
}.

Record Figure := mkFigure {
  fig_data : list Scatter;
  fig_layout : option Layout
}.

(** [go.Figure()]. *)
Definition empty_figure : Figure := mkFigure [] None.

(** The callback [update_output]; a key absent from [predictions] or
    [results] raises [KeyError]. *)
Definition update_output `{Externals} (ev : Evaluation)
    (n_clicks : Z) (model_type : string)
  : option (Figure * string * string * string) :=
  if bool_decide (n_clicks > 0)%Z then
    preds ← predictions ev !! model_type;
    let index := seq 0 (length (y_test ev)) in
    let trace := mkScatter index preds "lines+markers" "Predicted" in
    let trace_actual := mkScatter index (y_test ev) "lines" "Actual" in
    let layout :=
      mkLayout "Solar Energy Production Forecast" "Time" "Energy Produced" in
    let fig := mkFigure [trace; trace_actual] (Some layout) in
    metrics ← results ev !! model_type;
    Some (fig,
          "RMSE: " +:+ float_str (RMSE metrics),
          "MSE: " +:+ float_str (MSE metrics),
          "MAPE: " +:+ float_str (MAPE metrics))
  else Some (empty_figure, EmptyString, EmptyString, EmptyString).

(** A property value of a component. *)
Inductive prop_value :=
| PInt (n : Z)
| PStr (s : string)
| PFig (f : Figure).

(** A component property: component id and property name. *)
Abbreviation prop_id := (string * string)%type.

(** The state of the page: the current value of every property. *)
Abbreviation page := (gmap prop_id prop_value).

(** A registered callback: its outputs, its inputs and its function. *)
Record Callback := mkCallback {
  cb_outputs : list prop_id;
  cb_inputs : list prop_id;
  cb_run : list (option prop_value) → option (list prop_value)
}.

(** The function registered by [@app.callback] around [update_output]. *)
Definition update_output_cb `{Externals} (ev : Evaluation)
    (args : list (option prop_value)) : option (list prop_value) :=
  match args with
  | [Some (PInt n); Some (PStr key)] =>
      '(fig, r, m, p) ← update_output ev n key;
      Some [PFig fig; PStr r; PStr m; PStr p]
  | _ => None
  end.

(** The callbacks of the app: there is one. *)
Definition callbacks `{Externals} (ev : Evaluation) : list Callback :=
  [mkCallback
     [("prediction-graph", "figure"); ("rmse-display", "children");
      ("mse-display", "children"); ("mape-display", "children")]
     [("start-button", "n_clicks"); ("model-selector", "value")]
     (update_output_cb ev)].

(** The properties the layout sets. *)
Definition initial_page : page :=
  <[("start-button", "n_clicks") := PInt 0]>
  (<[("end-button", "n_clicks") := PInt 0]>
  (<[("model-selector", "value") := PStr "lr"]> ∅)).

Definition write_outputs (outs : list prop_id) (vals : list prop_value)
    (pg : page) : page :=
  foldl (λ q ov, <[ov.1 := ov.2]> q) pg (zip outs vals).

(** One callback reacting to a change of [changed]: it runs when the
    property is among its inputs; a callback that raises updates nothing. *)
Definition fire (changed : prop_id) (pg : page) (cb : Callback) : page :=
  if bool_decide (changed ∈ cb_inputs cb) then
    match cb_run cb ((λ i, pg !! i) <$> cb_inputs cb) with
    | Some vals => write_outputs (cb_outputs cb) vals pg
    | None => pg
    end
  else pg.

(** A property changes in the browser and the callbacks reading it run. *)
Definition set_prop (cbs : list Callback) (p : prop_id) (v : prop_value)
    (pg : page) : page :=
  foldl (fire p) (<[p := v]> pg) cbs.

(** A click on a button adds one to its [n_clicks]. *)
Definition click (cbs : list Callback) (button : string) (pg : page) : page :=
  let n := match pg !! (button, "n_clicks") with
           | Some (PInt n) => n
           | _ => 0%Z
           end in
  set_prop cbs (button, "n_clicks") (PInt (n + 1)) pg.

(** Choosing an entry of the dropdown. *)
Definition select_model (cbs : list Callback) (key : string) (pg : page) : page :=
  set_prop cbs ("model-selector", "value") (PStr key) pg.

(** The four outputs shown on the page. *)
Definition outputs (pg : page) : list (option prop_value) :=
  (λ o, pg !! o)
    <$> [("prediction-graph", "figure"); ("rmse-display", "children");
         ("mse-display", "children"); ("mape-display", "children")].

(** ** Auxiliary notions for the statements *)

(** The row [i] of the table restricted to [names]. *)
Definition row_of (csv : DataFrame) (names : list string) (i : nat) : document :=
  (λ n, (n, default None (default [] (get_column csv n) !! i))) <$> names.

(** What the store holds for a record it was given without [_id]. *)
Definition stored_as (r d : document) : Prop :=
  ∃ oid, d = ("_id", Some (VOid oid)) :: r.

(** The column labels of the fit calls in a history. *)
Definition fits (cs : list scaler_call) : list (list string) :=
  omap (λ c, match c with CallFit l => Some l | CallTransform _ => None end) cs.

(** The column labels of the transform calls in a history. *)
Definition transforms (cs : list scaler_call) : list (list string) :=
  omap (λ c, match c with CallTransform l => Some l | CallFit _ => None end) cs.

(** [col'] holds, in order, the entries of [col] at the positions listed
    in [idx]. *)
Definition rows_of {A} (idx : list nat) (col col' : list A) : Prop :=
  length col' = length idx ∧
  ∀ j i, idx !! j = Some i → is_Some (col !! i) ∧ col' !! j = col !! i.

(** The table [X'] holds, column by column and under the same labels, the
    rows of [X] listed in [idx]. *)
Definition table_rows (idx : list nat) (X X' : DataFrame) : Prop :=
  df_index X' = length idx ∧
  Forall2 (λ c c' : string * Series, c'.1 = c.1 ∧ rows_of idx c.2 c'.2)
          (df_columns X) (df_columns X').

(** Every column has one cell per index entry and the column labels are
    pairwise distinct. *)
Definition well_formed (df : DataFrame) : Prop :=
  NoDup (column_names df) ∧
  Forall (λ c : string * Series, length c.2 = df_index df) (df_columns df).

(** The identifiers of a collection are store-assigned, pairwise distinct
    and older than the next one to be handed out. *)
Definition store_ok (c : Collection) : Prop :=
  NoDup ((λ d, assoc "_id" d) <$> docs c) ∧
  Forall (λ d, ∃ n, assoc "_id" d = Some (Some (VOid n)) ∧ (n < next_oid c)%N)
         (docs c).

(** The sign bit of a float is clear (a NaN counts as clear). *)
Definition sign_clear (x : float) : bool :=
  match x with
  | S754_zero s | S754_infinity s | S754_finite s _ _ => negb s
  | S754_nan => true
  end.

(** The rational number a finite float stands for; the zeros, the
    infinities and NaN are sent to 0. *)
Definition F2Q (x : float) : Q :=
  match x with
  | S754_finite s m e =>
      (inject_Z (if s then Z.neg m else Z.pos m) * 2 ^ e)%Q
  | _ => 0%Q
  end.

(** A finite float is representable in binary64 when its mantissa has at
    most 53 binary digits and its exponent lies between -1074 and 971. *)
Definition representable (x : float) : Prop :=
  match x with
  | S754_finite _ m e => (Z.pos (digits2_pos m) ≤ 53 ∧ -1074 ≤ e ≤ 971)%Z
  | _ => True
  end.

(** The four output values a return value of the callback puts on the
    page. *)
Definition rendering (r : Figure * string * string * string)
  : list (option prop_value) :=
  let '(fig, s1, s2, s3) := r in
  [Some (PFig fig); Some (PStr s1); Some (PStr s2); Some (PStr s3)].

(** ** A small instance on which the cells can be run *)

(** An identity shuffle, the plain mean with unit scale, estimators that
    predict one constant, a counter as random state. *)
Definition demo_fit (m : regressor) (g : nat) (X : array) (y : list float)
  : option (float * nat) :=
  match m with
  | LinearRegression => Some (fdiv (fsum y) (of_nat (length y)), g)
  | RandomForestRegressor => Some (of_nat g, S g)
  | SVR => Some (default pzero (head y), S g)
  end.

Definition demo_predict (e : float) (X : array) : option (list float) :=
  Some (replicate (length (default [] (head X))) e).

Definition demo_float_str (x : float) : string :=
  match x with
  | S754_nan => "nan"
  | S754_infinity false => "inf"
  | S754_infinity true => "-inf"
  | S754_zero _ => "0.0"
  | S754_finite _ _ _ => "<float>"
  end.

#[local] Instance demo_externals : Externals := {|
  permutation n := seq 0 n;
  column_mean xs := fdiv (fsum xs) (of_nat (length xs));
  column_scale xs := of_Z 1;
  rng := nat;
  estimator := float;
  fit := demo_fit;
  predict := demo_predict;
  float_str := demo_float_str
|}.

Definition num (n : Z) : cell := Some (VFloat (of_Z n)).

(** A CSV table of five rows with the eight columns, one extra column and
    some empty fields. *)
Definition sample_csv : DataFrame :=
  mkDataFrame 5
    [("dtm", [Some (VStr "t0"); Some (VStr "t1"); Some (VStr "t2");
              Some (VStr "t3"); Some (VStr "t4")]);
     ("MIP", [num 20; None; num 22; num 23; None]);
     ("Solar_MW", [num 0; num 4; num 9; num 0; num 1]);
     ("Wind_MW", [num 7; num 7; num 7; num 7; num 7]);
     ("Solar_capacity_mwp", [num 100; num 100; num 101; num 101; num 102]);
     ("Solar_installedcapacity_mwp", [num 110; num 110; num 110; num 111; num 111]);
     ("SS_Price", [num 30; num 31; None; None; num 34]);
     ("boa_MWh", [num 0; num 0; num (-3); num 0; num 0]);
     ("DA_Price", [num 40; num 41; num 42; num 43; num 44])].

Definition sample_collection : Collection :=
  (import_csv_data sample_csv columns empty_collection).1.

Definition sample_retrieved : DataFrame :=
  DataFrame_of_records (find sample_collection).

Definition sample_clean : DataFrame :=
  Eval vm_compute in default (mkDataFrame 0 []) (clean sample_retrieved).

Definition sample_tr : Training :=
  Eval vm_compute in
    default (mkTraining _ sample_clean [] sample_clean sample_clean [] []
               new_scaler [] [] [] (0 : rng))
            (training (0 : rng) sample_clean).

Definition sample_ev : Evaluation :=
  Eval vm_compute in
    default (mkEvaluation sample_clean [] new_scaler [] ∅ ∅)
            (evaluation sample_tr sample_clean).

(** * Properties *)

(** ** Forward fill *)

Lemma ffill_from_length {A} (last : option A) (col : list (option A)) :
  length (ffill_from last col) = length col.
Proof.
  revert last. induction col as [|c rest IH]; intros last; simpl; [done|].
  by rewrite IH.
Qed.

(** Below a run of missing cells the fill still carries what it started
    with. *)
Lemma ffill_from_leading {A} (last : option A) (col : list (option A)) (i : nat) :
  (∀ j, j ≤ i → col !! j = Some None) →
  ffill_from last col !! i = Some last.
Proof.
  revert last i. induction col as [|c rest IH]; intros last i Hgap.
  - specialize (Hgap 0 ltac:(lia)). discriminate.
  - pose proof (Hgap 0 ltac:(lia)) as H0. simpl in H0.
    injection H0 as ->. destruct i as [|i]; simpl; [done|].
    apply IH. intros j Hj. apply (Hgap (S j)). lia.
Qed.

(** A cell takes the value of the nearest valid cell at or above it. *)
Lemma ffill_from_later {A} (last : option A) (col : list (option A))
    (i j : nat) (v : A) :
  j ≤ i →
  col !! j = Some (Some v) →
  (∀ k, j < k ≤ i → col !! k = Some None) →
  ffill_from last col !! i = Some (Some v).
Proof.
  revert last i j. induction col as [|c rest IH]; intros last i j Hji Hj Hgap.
  - discriminate.
  - destruct j as [|j].
    + simpl in Hj. injection Hj as ->. destruct i as [|i]; simpl; [done|].
      apply ffill_from_leading. intros k Hk. apply (Hgap (S k)). lia.
    + destruct i as [|i]; [lia|]. simpl.
      apply (IH _ i j); [lia|done|].
      intros k Hk. apply (Hgap (S k)). lia.
Qed.

Lemma fillna_ffill_lookup (df : DataFrame) (k : nat) :
  df_columns (fillna_ffill df) !! k
  = fill_column <$> (df_columns df !! k).
Proof. unfold fillna_ffill. simpl. apply list_lookup_fmap. Qed.

(** C1.  For every column of the table handed to the forward-fill, the
    filled column has the same length, every row before the first valid
    value of the column stays missing, and every other row holds the value
    of the nearest valid row at or above it. *)
Theorem ffill_columns (df : DataFrame) (k : nat) (name : string) (col : Series) :
  df_columns df !! k = Some (name, col) →
  ∃ col',
    df_columns (fillna_ffill df) !! k = Some (name, col') ∧
    length col' = length col ∧
    (∀ i, (∀ j, j ≤ i → col !! j = Some None) → col' !! i = Some None) ∧
    (∀ i j v, j ≤ i → col !! j = Some (Some v) →
              (∀ r, j < r ≤ i → col !! r = Some None) →
              col' !! i = Some (Some v)).
Proof.
  intros Hk. exists (ffill col). split; [|split; [|split]].
  - rewrite fillna_ffill_lookup, Hk. done.
  - apply ffill_from_length.
  - intros i Hgap. by apply ffill_from_leading.
  - intros i j v Hji Hj Hgap. by apply (ffill_from_later _ _ i j).
Qed.

Lemma ffill_columns_witness :
  let col := [num 30; num 31; None; None; num 34] in
  df_columns sample_retrieved !! 6 = Some ("SS_Price", col) ∧
  ∃ col',
    df_columns (fillna_ffill sample_retrieved) !! 6 = Some ("SS_Price", col') ∧
    length col' = length col ∧
    (∀ i, (∀ j, j ≤ i → col !! j = Some None) → col' !! i = Some None) ∧
    (∀ i j v, j ≤ i → col !! j = Some (Some v) →
              (∀ r, j < r ≤ i → col !! r = Some None) →
              col' !! i = Some (Some v)).
Proof.
  intros col.
  assert (Hk : df_columns sample_retrieved !! 6 = Some ("SS_Price", col)).
  { vm_compute. reflexivity. }
  split; [exact Hk|]. exact (ffill_columns sample_retrieved 6 "SS_Price" col Hk).
Defined.

(** ** Retrieval and cleaning *)

Lemma column_names_filter (name : string) (cs : list (string * Series)) :
  (filter (λ c, c.1 ≠ name) cs).*1 = filter (λ n, n ≠ name) cs.*1.
Proof.
  induction cs as [|[n c] cs IH]; [done|].
  rewrite fmap_cons, !filter_cons. cbn [fst].
  destruct (decide (n ≠ name)); [rewrite fmap_cons; cbn [fst]; f_equal|]; exact IH.
Qed.

Lemma column_names_fillna (df : DataFrame) :
  column_names (fillna_ffill df) = column_names df.
Proof.
  unfold column_names, fillna_ffill. simpl.
  rewrite <- list_fmap_compose. apply list_fmap_ext. by intros ? [??].
Qed.

(** A value that is present survives the fill. *)
Lemma ffill_keeps_value {A} (col : list (option A)) (i : nat) (v : A) :
  col !! i = Some (Some v) → ffill col !! i = Some (Some v).
Proof.
  intros Hi. apply (ffill_from_later _ _ i i); [lia|done|]. intros r Hr. lia.
Qed.

Lemma keys_union_seen (seen : list string) (ds : list document) (k : string) :
  k ∈ seen → k ∈ keys_union seen ds.
Proof.
  revert seen. induction ds as [|d ds IH]; intros seen Hk; simpl; [done|].
  apply IH, elem_of_app. by left.
Qed.

Lemma column_names_of_records (ds : list document) :
  column_names (DataFrame_of_records ds) = keys_union [] ds.
Proof.
  unfold column_names, DataFrame_of_records. simpl.
  rewrite <- list_fmap_compose. apply list_fmap_id.
Qed.

(** A table built from stored documents has the [_id] column as soon as
    there is a document. *)
Lemma retrieved_has_id (d : document) (ds : list document) :
  "_id" ∈ d.*1 → "_id" ∈ column_names (DataFrame_of_records (d :: ds)).
Proof.
  intros Hd. rewrite column_names_of_records. simpl.
  apply keys_union_seen. simpl.
  apply list_elem_of_difference. split; [|apply not_elem_of_nil].
  by apply elem_of_remove_dups.
Qed.

(** C10.  On a retrieved table (one with an [_id] column) the cleaning
    succeeds; it keeps the number of rows, its columns are the retrieved
    ones without [_id] in the same order, every kept column keeps its
    length, and every value that was present is still there. *)
Theorem clean_preserves (df : DataFrame) :
  "_id" ∈ column_names df →
  ∃ df',
    clean df = Some df' ∧
    df_index df' = df_index df ∧
    column_names df' = filter (λ n, n ≠ "_id") (column_names df) ∧
    (∀ name col, (name, col) ∈ df_columns df → name ≠ "_id" →
       ∃ col', (name, col') ∈ df_columns df' ∧
               length col' = length col ∧
               ∀ i v, col !! i = Some (Some v) → col' !! i = Some (Some v)).
Proof.
  intros Hid. unfold clean, drop_column.
  destruct (decide ("_id" ∈ column_names df)) as [_|Hno]; [|done].
  eexists. split; [reflexivity|]. split; [done|]. split.
  - rewrite column_names_fillna. apply column_names_filter.
  - intros name col Hin Hne. exists (ffill col). split; [|split].
    + simpl. apply (list_elem_of_fmap_2 fill_column _ (name, col)).
      apply list_elem_of_filter. done.
    + apply ffill_from_length.
    + intros i v. apply ffill_keeps_value.
Qed.

Lemma clean_preserves_witness :
  "_id" ∈ column_names sample_retrieved ∧
  ∃ df',
    clean sample_retrieved = Some df' ∧
    df_index df' = df_index sample_retrieved ∧
    column_names df'
      = filter (λ n, n ≠ "_id") (column_names sample_retrieved) ∧
    (∀ name col, (name, col) ∈ df_columns sample_retrieved → name ≠ "_id" →
       ∃ col', (name, col') ∈ df_columns df' ∧
               length col' = length col ∧
               ∀ i v, col !! i = Some (Some v) → col' !! i = Some (Some v)).
Proof.
  assert (Hid : "_id" ∈ column_names sample_retrieved).
  { vm_compute. apply list_elem_of_here. }
  split; [exact Hid|]. exact (clean_preserves sample_retrieved Hid).
Defined.

(** ** Ingestion *)

Lemma assoc_None {A} (k : string) (l : list (string * A)) :
  k ∉ l.*1 → assoc k l = None.
Proof.
  induction l as [|[k' v] l IH]; intros Hk; simpl; [done|].
  rewrite fmap_cons in Hk. apply not_elem_of_cons in Hk as [Hne Hk].
  destruct (decide (k = k')); [done|]. by apply IH.
Qed.

Lemma assoc_is_Some {A} (k : string) (l : list (string * A)) :
  k ∈ l.*1 → is_Some (assoc k l).
Proof.
  induction l as [|[k' v] l IH]; intros Hk; simpl.
  - by apply elem_of_nil in Hk.
  - destruct (decide (k = k')); [by eexists|].
    rewrite fmap_cons in Hk. apply elem_of_cons in Hk as [Hk|Hk]; [done|].
    by apply IH.
Qed.

(** Looking a key up in a list built from its keys. *)
Lemma assoc_fmap_key {A} (f : string → A) (names : list string) (k : string) :
  k ∈ names → assoc k ((λ n, (n, f n)) <$> names) = Some (f k).
Proof.
  induction names as [|n names IH]; intros Hk.
  - by apply elem_of_nil in Hk.
  - rewrite fmap_cons. simpl. destruct (decide (k = n)) as [->|Hne]; [done|].
    apply elem_of_cons in Hk as [Hk|Hk]; [done|]. by apply IH.
Qed.

Lemma select_present (csv : DataFrame) (names : list string) :
  names ⊆ column_names csv →
  select csv names
  = Some (mkDataFrame (df_index csv)
            ((λ n, (n, default [] (get_column csv n))) <$> names)).
Proof.
  intros Hsub. unfold select.
  assert (mapM (λ n, c ← get_column csv n; Some (n, c)) names
          = Some ((λ n, (n, default [] (get_column csv n))) <$> names)) as ->;
    [|done].
  induction names as [|n names IH]; [done|].
  assert (is_Some (get_column csv n)) as [c Hc].
  { apply assoc_is_Some, Hsub, list_elem_of_here. }
  cbn [mapM]. rewrite Hc. simpl. rewrite IH.
  - simpl. by rewrite Hc.
  - intros x Hx. apply Hsub. by apply list_elem_of_further.
Qed.

Lemma dict_set_new {A} (k : string) (v : A) (d : list (string * A)) :
  k ∉ d.*1 → dict_set k v d = d ++ [(k, v)].
Proof.
  induction d as [|[k' v'] d IH]; intros Hk; simpl; [done|].
  rewrite fmap_cons in Hk. apply not_elem_of_cons in Hk as [Hne Hk].
  destruct (decide (k = k')); [done|]. by rewrite IH.
Qed.

(** Under pairwise distinct labels the dictionary of a row lists the
    columns in order. *)
Lemma row_dict_distinct (cols : list (string * Series)) (i : nat)
    (acc : document) :
  NoDup (acc.*1 ++ cols.*1) →
  foldl (λ d (c : string * Series), dict_set c.1 (default None (c.2 !! i)) d)
        acc cols
  = acc ++ ((λ c : string * Series, (c.1, default None (c.2 !! i))) <$> cols).
Proof.
  revert acc. induction cols as [|c cols IH]; intros acc Hnd; simpl.
  - by rewrite app_nil_r.
  - rewrite fmap_cons in Hnd.
    rewrite dict_set_new.
    2:{ apply NoDup_app in Hnd as (_ & Hdis & _). intros Hc.
        apply (Hdis _ Hc), list_elem_of_here. }
    rewrite IH.
    + by rewrite <- app_assoc.
    + rewrite fmap_app. simpl. by rewrite <- app_assoc.
Qed.

Lemma records_of_select (csv : DataFrame) (names : list string) :
  NoDup names → names ≠ [] →
  to_dict_records
    (mkDataFrame (df_index csv)
       ((λ n, (n, default [] (get_column csv n))) <$> names))
  = row_of csv names <$> seq 0 (df_index csv).
Proof.
  intros Hnd Hne. unfold to_dict_records. cbn [df_columns df_index].
  destruct ((λ n, (n, default [] (get_column csv n))) <$> names)
    as [|c cols] eqn:Hcols.
  { by apply fmap_nil_inv in Hcols. }
  rewrite <- Hcols. apply list_fmap_ext. intros _ i _.
  unfold row_dict. rewrite row_dict_distinct.
  - unfold row_of. simpl. by rewrite <- list_fmap_compose.
  - simpl. rewrite <- list_fmap_compose.
    replace (fst ∘ (λ n, (n, default [] (get_column csv n)))) with (@id string)
      by done.
    by rewrite list_fmap_id.
Qed.

(** A table without columns has no records, whatever its number of rows,
    and under a repeated label a record keeps one field, holding the entry
    of the last column that carries the label. *)
Lemma to_dict_records_no_columns (n : nat) :
  to_dict_records (mkDataFrame n []) = [].
Proof. done. Qed.

Lemma to_dict_records_repeated_label (k : string) (a b : cell) :
  to_dict_records (mkDataFrame 1 [(k, [a]); (k, [b])]) = [[(k, b)]].
Proof.
  unfold to_dict_records, row_dict. simpl. by rewrite decide_True.
Qed.

(** With an empty column list the selection has no column, the list of
    records is empty and the bulk insert raises [TypeError]. *)
Lemma import_csv_data_no_columns (csv : DataFrame) (c : Collection) :
  import_csv_data csv [] c = (c, Raised TypeError).
Proof. done. Qed.

Lemma columns_NoDup : NoDup columns.
Proof. apply (bool_decide_unpack _). vm_compute. exact I. Qed.

Lemma columns_not_nil : columns ≠ [].
Proof. done. Qed.

Lemma insert_ordered_fresh (records : list document) (c : Collection) :
  Forall (λ r, assoc "_id" r = None) records →
  ∃ new,
    docs (insert_ordered records c).1 = docs c ++ new ∧
    Forall2 stored_as records new ∧
    (insert_ordered records c).2 = Returned.
Proof.
  intros Hfresh. revert c.
  induction Hfresh as [|r rest Hr _ IH]; intros c; simpl.
  - exists []. by rewrite app_nil_r.
  - rewrite Hr.
    destruct (IH (mkCollection
                    (docs c ++ [("_id", Some (VOid (next_oid c))) :: r])
                    (N.succ (next_oid c)))) as (new & Hdocs & Hall & Hout).
    exists ((("_id", Some (VOid (next_oid c))) :: r) :: new).
    split; [|split; [|done]].
    + rewrite Hdocs. simpl. by rewrite <- app_assoc.
    + constructor; [by eexists|done].
Qed.

Lemma insert_many_fresh (records : list document) (c : Collection) :
  Forall (λ r, assoc "_id" r = None) records →
  ∃ new,
    docs (insert_many records c).1 = docs c ++ new ∧
    Forall2 stored_as records new ∧
    (records ≠ [] → (insert_many records c).2 = Returned).
Proof.
  intros Hfresh. destruct records as [|r rest].
  - exists []. simpl. by rewrite app_nil_r.
  - destruct (insert_ordered_fresh (r :: rest) c Hfresh) as (new & ? & ? & ?).
    exists new. done.
Qed.

Lemma filter_no_id (r : document) :
  "_id" ∉ r.*1 → filter (λ f : string * cell, f.1 ≠ "_id") r = r.
Proof.
  induction r as [|[k v] r IH]; intros Hr; [done|].
  rewrite fmap_cons in Hr. apply not_elem_of_cons in Hr as [Hne Hr].
  rewrite filter_cons_True; [|done]. f_equal. by apply IH.
Qed.

Lemma without_id_stored (r d : document) :
  "_id" ∉ r.*1 → stored_as r d → without_id d = r.
Proof.
  intros Hr [oid ->]. unfold without_id.
  rewrite filter_cons_False; [|by intros H; apply H].
  by apply filter_no_id.
Qed.

Lemma without_id_stored_all (rs ds : list document) :
  Forall (λ r, "_id" ∉ r.*1) rs → Forall2 stored_as rs ds →
  without_id <$> ds = rs.
Proof.
  intros Hrs Hall. induction Hall as [|r d rs ds Hrd _ IH]; [done|].
  apply Forall_cons in Hrs as [Hr Hrs]. rewrite fmap_cons.
  f_equal; [by apply without_id_stored|by apply IH].
Qed.

Lemma row_of_keys (csv : DataFrame) (names : list string) (i : nat) :
  (row_of csv names i).*1 = names.
Proof.
  unfold row_of. rewrite <- list_fmap_compose. simpl. apply list_fmap_id.
Qed.

Lemma columns_no_id : "_id" ∉ columns.
Proof. apply (bool_decide_unpack _). vm_compute. exact I. Qed.

Lemma rows_fresh (csv : DataFrame) (n : nat) :
  Forall (λ r : document, "_id" ∉ r.*1) (row_of csv columns <$> seq 0 n).
Proof.
  apply Forall_fmap, Forall_forall. intros i _.
  change ("_id" ∉ (row_of csv columns i).*1).
  rewrite row_of_keys. apply columns_no_id.
Qed.

(** One run of the ingestion on a table that has the listed columns. *)
Lemma import_csv_data_run (csv : DataFrame) (c : Collection) :
  columns ⊆ column_names csv →
  ∃ new,
    docs (import_csv_data csv columns c).1 = docs c ++ new ∧
    Forall2 stored_as (row_of csv columns <$> seq 0 (df_index csv)) new ∧
    (0 < df_index csv → (import_csv_data csv columns c).2 = Returned).
Proof.
  intros Hsub. unfold import_csv_data.
  rewrite (select_present _ _ Hsub),
    (records_of_select _ _ columns_NoDup columns_not_nil).
  destruct (insert_many_fresh (row_of csv columns <$> seq 0 (df_index csv)) c)
    as (new & Hdocs & Hall & Hout).
  - eapply Forall_impl; [apply rows_fresh|]. intros r Hr. by apply assoc_None.
  - exists new. split; [done|]. split; [done|].
    intros Hpos. apply Hout. destruct (df_index csv); [lia|done].
Qed.

(** C7.  On a CSV table that has the eight listed columns, a run of the
    ingestion appends one document per row; each document holds the
    identifier the store assigns followed by exactly the eight listed
    columns with the values of its row.  A second run on the same file
    appends the same documents again under new identifiers, so a
    collection that started empty holds twice as many documents. *)
Theorem import_csv_data_appends (csv : DataFrame) (c : Collection) :
  columns ⊆ column_names csv →
  let c1 := (import_csv_data csv columns c).1 in
  let c2 := (import_csv_data csv columns c1).1 in
  ∃ new1 new2,
    docs c1 = docs c ++ new1 ∧
    docs c2 = docs c1 ++ new2 ∧
    length new1 = df_index csv ∧
    length new2 = df_index csv ∧
    without_id <$> new1 = without_id <$> new2 ∧
    (∀ i d, new1 !! i = Some d →
       d.*1 = "_id" :: columns ∧
       ∀ k col, k ∈ columns → get_column csv k = Some col →
                field k d = default None (col !! i)) ∧
    (docs c = [] → length (docs c2) = 2 * length (docs c1)).
Proof.
  intros Hsub c1 c2.
  destruct (import_csv_data_run csv c Hsub) as (new1 & Hd1 & Hall1 & _).
  destruct (import_csv_data_run csv c1 Hsub) as (new2 & Hd2 & Hall2 & _).
  exists new1, new2.
  pose proof (Forall2_length _ _ _ Hall1) as Hlen1.
  pose proof (Forall2_length _ _ _ Hall2) as Hlen2.
  rewrite length_fmap, length_seq in Hlen1, Hlen2.
  split; [done|]. split; [done|]. split; [done|]. split; [done|].
  split; [|split].
  - rewrite (without_id_stored_all _ _ (rows_fresh csv _) Hall1).
    by rewrite (without_id_stored_all _ _ (rows_fresh csv _) Hall2).
  - intros i d Hi.
    destruct (Forall2_lookup_r _ _ _ _ _ Hall1 Hi) as (r & Hr & [oid ->]).
    rewrite list_lookup_fmap in Hr.
    destruct (seq 0 (df_index csv) !! i) as [i'|] eqn:Hseq; [|done].
    apply lookup_seq in Hseq as [-> _].
    change (Some (row_of csv columns i) = Some r) in Hr.
    apply (inj Some) in Hr. subst r.
    split.
    + rewrite fmap_cons, row_of_keys. done.
    + intros k col Hk Hcol. unfold field. cbn [assoc].
      destruct (decide (k = "_id")) as [->|_].
      { by apply columns_no_id in Hk. }
      unfold row_of. rewrite (assoc_fmap_key _ _ _ Hk), Hcol. done.
  - intros Hempty. fold c1 in Hd1. fold c2 in Hd2.
    rewrite Hd2, Hd1, Hempty, !length_app. simpl. lia.
Qed.

Lemma import_csv_data_appends_witness :
  columns ⊆ column_names sample_csv ∧
  let c1 := (import_csv_data sample_csv columns empty_collection).1 in
  let c2 := (import_csv_data sample_csv columns c1).1 in
  ∃ new1 new2,
    docs c1 = docs empty_collection ++ new1 ∧
    docs c2 = docs c1 ++ new2 ∧
    length new1 = df_index sample_csv ∧
    length new2 = df_index sample_csv ∧
    without_id <$> new1 = without_id <$> new2 ∧
    (∀ i d, new1 !! i = Some d →
       d.*1 = "_id" :: columns ∧
       ∀ k col, k ∈ columns → get_column sample_csv k = Some col →
                field k d = default None (col !! i)) ∧
    (docs empty_collection = [] → length (docs c2) = 2 * length (docs c1)).
Proof.
  assert (Hsub : columns ⊆ column_names sample_csv).
  { apply (bool_decide_unpack _). vm_compute. exact I. }
  split; [exact Hsub|].
  exact (import_csv_data_appends sample_csv empty_collection Hsub).
Defined.

(** ** Training and evaluation *)

Ltac split_pairs :=
  repeat match goal with
         | p : (_ * _)%type |- _ => destruct p
         end.

(** Peel the first step off a cell that returned. *)
Ltac step_in H :=
  match type of H with
  | mbind _ ?x = Some _ =>
      let E := fresh "Hstep" in
      destruct x eqn:E; [|discriminate H];
      split_pairs; cbn [mbind option_bind] in H
  end.

Lemma select_inv (df X : DataFrame) (names : list string) :
  select df names = Some X →
  column_names X = names ∧ df_index X = df_index df.
Proof.
  unfold select. intros H. step_in H. injection H as <-. split; [|done].
  apply mapM_Some in Hstep. unfold column_names. simpl.
  induction Hstep as [|n c names cs Hn _ IH]; [done|].
  rewrite fmap_cons. f_equal; [|done].
  destruct (get_column df n); [|done]. by injection Hn as <-.
Qed.

Lemma iloc_inv (df X : DataFrame) (idx : list nat) :
  iloc df idx = Some X →
  column_names X = column_names df ∧ df_index X = length idx.
Proof.
  unfold iloc. intros H. step_in H. injection H as <-. split; [|done].
  apply mapM_Some in Hstep. unfold column_names. simpl.
  induction Hstep as [|c c' cs cs' Hc _ IH]; [done|].
  rewrite !fmap_cons. f_equal; [|done].
  destruct (take_rows idx c.2); [|done]. by injection Hc as <-.
Qed.

(** The rows [train_test_split] hands out: the training part is the
    shuffle after its first [ceil(0.2 * n)] entries. *)
Lemma train_test_split_inv `{Externals} (X X_tr X_va : DataFrame)
    (y y_tr y_va : Series) :
  train_test_split X y = Some (X_tr, X_va, y_tr, y_va) →
  ∃ n_test : Z,
    ceil (fmul test_size (of_nat (df_index X))) = Some n_test ∧
    let n_train := df_index X - Z.to_nat n_test in
    n_train ≠ 0 ∧
    iloc X (take n_train (drop (Z.to_nat n_test) (permutation (df_index X))))
    = Some X_tr ∧
    iloc X (take (Z.to_nat n_test) (permutation (df_index X))) = Some X_va ∧
    take_rows (take n_train (drop (Z.to_nat n_test) (permutation (df_index X)))) y
    = Some y_tr.
Proof.
  unfold train_test_split. intros Hs.
  destruct (decide (length y = df_index X)); [|done].
  destruct (ceil (fmul test_size (of_nat (df_index X)))) as [n_test|]; [|done].
  cbn [fmap option_fmap option_map mbind option_bind] in Hs.
  destruct (decide (df_index X - Z.to_nat n_test = 0)); [done|].
  do 4 step_in Hs. injection Hs as <- <- <- <-. by exists n_test.
Qed.

Lemma scaler_fit_inv `{Externals} (sc sc' : StandardScaler) (X : DataFrame) :
  scaler_fit sc X = Some sc' →
  ∃ a, to_array X = Some a ∧
       params sc' = Some (mkScalerParams (column_mean <$> a) (column_scale <$> a)) ∧
       calls sc' = calls sc ++ [CallFit (column_names X)].
Proof.
  unfold scaler_fit. intros Hf. step_in Hf. injection Hf as <-. by eexists.
Qed.

(** A transform reads the fitted attributes and leaves them as they are. *)
Lemma scaler_transform_inv (sc sc' : StandardScaler) (X : DataFrame) (out : array) :
  scaler_transform sc X = Some (sc', out) →
  ∃ p a, params sc = Some p ∧ to_array X = Some a ∧
         out = standardize p a ∧
         params sc' = params sc ∧
         calls sc' = calls sc ++ [CallTransform (column_names X)].
Proof.
  unfold scaler_transform. intros Ht. do 2 step_in Ht.
  destruct (decide _); [|done]. injection Ht as <- <-. by eexists _, _.
Qed.

Lemma scaler_fit_transform_inv `{Externals} (sc sc' : StandardScaler)
    (X : DataFrame) (out : array) :
  scaler_fit_transform sc X = Some (sc', out) →
  ∃ a, to_array X = Some a ∧
       params sc' = Some (mkScalerParams (column_mean <$> a) (column_scale <$> a)) ∧
       calls sc'
       = calls sc ++ [CallFit (column_names X); CallTransform (column_names X)].
Proof.
  unfold scaler_fit_transform. intros Hft. step_in Hft.
  apply scaler_fit_inv in Hstep as (a & Ha & Hp & Hc).
  apply scaler_transform_inv in Hft as (p & a' & _ & _ & _ & Hp' & Hc').
  exists a. split; [done|]. split; [by rewrite Hp'|].
  by rewrite Hc', Hc, <- app_assoc.
Qed.

Lemma fit_models_keys `{Externals} (ms : list (string * regressor)) (g g' : rng)
    (X : array) (y : list float) (es : list (string * estimator)) :
  fit_models ms g X y = Some (es, g') → es.*1 = ms.*1.
Proof.
  revert g es. induction ms as [|[name m] ms IH]; intros g es Hf;
    cbn [fit_models] in Hf.
  - by injection Hf as <- _.
  - do 2 step_in Hf. injection Hf as <- <-.
    rewrite !fmap_cons. cbn [fst]. f_equal. eapply IH. eassumption.
Qed.

(** What the training cell leaves behind when it returns. *)
Lemma training_inv `{Externals} (g : rng) (data_train : DataFrame) (tr : Training) :
  training g data_train = Some tr →
  select data_train features = Some (X_train tr) ∧
  get_column data_train target = Some (y_train tr) ∧
  train_test_split (X_train tr) (y_train tr)
  = Some (X_train_split tr, X_valid_split tr, y_train_split tr, y_valid_split tr) ∧
  (∃ a, to_array (X_train_split tr) = Some a ∧
        params (scaler tr)
        = Some (mkScalerParams (column_mean <$> a) (column_scale <$> a))) ∧
  calls (scaler tr)
  = [CallFit (column_names (X_train_split tr));
     CallTransform (column_names (X_train_split tr));
     CallTransform (column_names (X_valid_split tr))] ∧
  (fitted_models tr).*1 = models.*1.
Proof.
  unfold training. intros Ht. do 7 step_in Ht.
  injection Ht as <-. cbn -[models].
  repeat match goal with
         | Hx : scaler_fit_transform _ _ = Some _ |- _ =>
             apply scaler_fit_transform_inv in Hx as (a & Ha & Hp & Hc)
         | Hx : scaler_transform _ _ = Some _ |- _ =>
             apply scaler_transform_inv in Hx as (p2 & a2 & _ & _ & _ & Hp2 & Hc2)
         end.
  split; [done|]. split; [done|]. split; [done|]. split; [|split].
  - exists a. split; [done|]. by rewrite Hp2.
  - rewrite Hc2, Hc. done.
  - match goal with
    | Hx : fit_models _ _ _ _ = Some _ |- _ =>
        exact (fit_models_keys _ _ _ _ _ _ Hx)
    end.
Qed.

(** What the evaluation cell leaves behind when it returns. *)
Lemma evaluation_inv `{Externals} (tr : Training) (data_test : DataFrame)
    (ev : Evaluation) :
  evaluation tr data_test = Some ev →
  select data_test features = Some (X_test ev) ∧
  scaler_transform (scaler tr) (X_test ev)
  = Some (test_scaler ev, X_test_scaled ev) ∧
  ∃ ps rs ys,
    predict_all (fitted_models tr) (X_test_scaled ev) = Some ps ∧
    get_column data_test target = Some ys ∧
    series_to_floats ys = Some (y_test ev) ∧
    evaluate_all (y_test ev) ps = Some rs ∧
    predictions ev = dict_of ps ∧
    results ev = dict_of rs.
Proof.
  unfold evaluation. intros He. do 6 step_in He. injection He as <-. simpl.
  split; [done|]. split; [done|]. by eexists _, _, _.
Qed.

(** The calls the scaler has received once both cells have run. *)
Lemma scaler_history `{Externals} (g : rng) (data_train data_test : DataFrame)
    (tr : Training) (ev : Evaluation) :
  training g data_train = Some tr →
  evaluation tr data_test = Some ev →
  calls (test_scaler ev)
  = [CallFit features; CallTransform features;
     CallTransform features; CallTransform features] ∧
  column_names (X_train tr) = features ∧
  column_names (X_train_split tr) = features ∧
  column_names (X_valid_split tr) = features ∧
  column_names (X_test ev) = features.
Proof.
  intros Ht He.
  apply training_inv in Ht as (Hsel & _ & Hsplit & _ & Hcalls & _).
  apply evaluation_inv in He as (Hsel' & Htr & _).
  apply select_inv in Hsel as [Hn _]. apply select_inv in Hsel' as [Hn' _].
  apply train_test_split_inv in Hsplit as (n_test & _ & _ & Htr_rows & Hva_rows & _).
  apply iloc_inv in Htr_rows as [Hn1 _]. apply iloc_inv in Hva_rows as [Hn2 _].
  apply scaler_transform_inv in Htr as (p & a & _ & _ & _ & _ & Hc).
  rewrite Hn in Hn1, Hn2.
  rewrite Hc, Hcalls, Hn1, Hn2, Hn'. done.
Qed.

Lemma take_rows_spec {A} (idx : list nat) (col col' : list A) :
  take_rows idx col = Some col' → rows_of idx col col'.
Proof.
  unfold take_rows. intros Hm. apply mapM_Some in Hm. split.
  - symmetry. exact (Forall2_length _ _ _ Hm).
  - intros j i Hj.
    destruct (Forall2_lookup_l _ _ _ _ _ Hm Hj) as (x & Hx & Hi).
    rewrite Hx, Hi. split; [by eexists|done].
Qed.

Lemma iloc_spec (X X' : DataFrame) (idx : list nat) :
  iloc X idx = Some X' → table_rows idx X X'.
Proof.
  unfold iloc. intros Hi. step_in Hi. injection Hi as <-. split; [done|].
  simpl. apply mapM_Some in Hstep.
  eapply Forall2_impl; [exact Hstep|]. intros c c' Hc. simpl in Hc.
  destruct (take_rows idx c.2) as [rows|] eqn:Hrows; [|done].
  injection Hc as <-. split; [done|]. by apply take_rows_spec.
Qed.

(** A transform accepts only as many columns as were fitted. *)
Lemma scaler_transform_columns (sc sc' : StandardScaler) (X : DataFrame)
    (out : array) :
  scaler_transform sc X = Some (sc', out) →
  ∃ p a, params sc = Some p ∧ to_array X = Some a ∧
         length a = length (mean_ p).
Proof.
  unfold scaler_transform. intros Ht. do 2 step_in Ht.
  destruct (decide _); [|done]. by eexists _, _.
Qed.

(** The entries of a standardized column: each is the entry of the input
    column minus the fitted mean, divided by the fitted scale. *)
Lemma standardize_lookup (p : ScalerParams) (a : array) (c : nat)
    (col : list float) (mu sg : float) :
  a !! c = Some col → mean_ p !! c = Some mu → scale_ p !! c = Some sg →
  standardize p a !! c = Some ((λ x, fdiv (fsub x mu) sg) <$> col).
Proof.
  intros Ha Hmu Hsg. unfold standardize.
  rewrite lookup_zip_with, Ha. cbn [mbind option_bind].
  rewrite lookup_zip_with, Hmu, Hsg. done.
Qed.

(** C3.  When both cells return: the scaler received one fit call, on the
    feature columns of the training part of the split, which holds the
    rows of [data_train[features]] listed by the shuffle after its first
    [ceil(0.2 * n)] entries ([n - ceil(0.2 * n)] rows when the shuffle has
    [n] entries, none of them a validation row when it has no repeats);
    the attributes the scaler holds at evaluation time are the column
    statistics of exactly that table; and every entry of the scaled test
    table is the entry of the test feature table minus the training mean
    of its column, divided by the training scale of its column. *)
Theorem scaler_fitted_once `{Externals} (g : rng)
    (data_train data_test : DataFrame) (tr : Training) (ev : Evaluation) :
  training g data_train = Some tr →
  evaluation tr data_test = Some ev →
  ∃ (n_test : Z) (a_train a_test : array),
    let p := mkScalerParams (column_mean <$> a_train) (column_scale <$> a_train) in
    let n := df_index (X_train tr) in
    let ind_test := take (Z.to_nat n_test) (permutation n) in
    let ind_train :=
      take (n - Z.to_nat n_test) (drop (Z.to_nat n_test) (permutation n)) in
    select data_train features = Some (X_train tr) ∧
    ceil (fmul test_size (of_nat n)) = Some n_test ∧
    table_rows ind_train (X_train tr) (X_train_split tr) ∧
    (length (permutation n) = n →
       ind_test ++ ind_train = permutation n ∧
       df_index (X_train_split tr) = n - Z.to_nat n_test ∧
       0 < df_index (X_train_split tr)) ∧
    (NoDup (permutation n) → ∀ i, i ∈ ind_train → i ∉ ind_test) ∧
    to_array (X_train_split tr) = Some a_train ∧
    fits (calls (test_scaler ev)) = [column_names (X_train_split tr)] ∧
    params (scaler tr) = Some p ∧
    params (test_scaler ev) = Some p ∧
    select data_test features = Some (X_test ev) ∧
    to_array (X_test ev) = Some a_test ∧
    length (X_test_scaled ev) = length a_test ∧
    length a_train = length a_test ∧
    ∀ c col_tr col_te,
      a_train !! c = Some col_tr → a_test !! c = Some col_te →
      X_test_scaled ev !! c
      = Some ((λ x, fdiv (fsub x (column_mean col_tr)) (column_scale col_tr))
                <$> col_te).
Proof.
  intros Ht He.
  destruct (scaler_history _ _ _ _ _ Ht He) as (Hcalls & _ & Hnames & _).
  apply training_inv in Ht as (Hsel & _ & Hsplit & (a & Ha & Hp) & _).
  apply evaluation_inv in He as (Hsel' & Htr & _).
  apply train_test_split_inv in Hsplit as (n_test & Hceil & Hne & Hrows & _).
  pose proof (scaler_transform_columns _ _ _ _ Htr) as (p0 & a0 & Hp0 & Ha0 & Hlen).
  apply scaler_transform_inv in Htr as (p & a' & Hp' & Ha' & Hout & Hkeep & _).
  rewrite Hp' in Hp0. injection Hp0 as <-.
  rewrite Ha' in Ha0. injection Ha0 as <-.
  rewrite Hp in Hp'. injection Hp' as <-. simpl in Hlen.
  rewrite length_fmap in Hlen.
  exists n_test, a, a'. cbn zeta.
  set (n := df_index (X_train tr)) in *.
  set (k := Z.to_nat n_test) in *.
  pose proof (iloc_spec _ _ _ Hrows) as Htab.
  split; [done|]. split; [done|]. split; [done|]. split; [|split].
  - intros Hperm.
    assert (take (n - k) (drop k (permutation n)) = drop k (permutation n))
      as Htake.
    { apply take_ge. rewrite length_drop. lia. }
    destruct Htab as [Hidx _]. rewrite Hidx, Htake, length_drop.
    split; [apply firstn_skipn|]. lia.
  - intros Hnd i Hi Hi'.
    apply elem_of_take in Hi as (j & Hj & _).
    rewrite lookup_drop in Hj.
    apply elem_of_take in Hi' as (j' & Hj' & Hlt).
    pose proof (NoDup_lookup _ _ _ _ Hnd Hj Hj'). lia.
  - split; [done|]. split; [by rewrite Hcalls, Hnames|].
    split; [done|]. split; [by rewrite Hkeep|]. split; [done|].
    split; [done|]. split; [|split; [done|]].
    + rewrite Hout. unfold standardize.
      rewrite length_zip_with_l_eq; [done|].
      simpl. rewrite length_zip_with, !length_fmap. lia.
    + intros c col_tr col_te Hctr Hcte. rewrite Hout.
      apply standardize_lookup; [done| |]; simpl;
        by rewrite list_lookup_fmap, Hctr.
Qed.

Lemma scaler_fitted_once_witness :
  training (0 : rng) sample_clean = Some sample_tr ∧
  evaluation sample_tr sample_clean = Some sample_ev ∧
  ∃ (n_test : Z) (a_train a_test : array),
    let p := mkScalerParams (column_mean <$> a_train) (column_scale <$> a_train) in
    let n := df_index (X_train sample_tr) in
    let ind_test := take (Z.to_nat n_test) (permutation n) in
    let ind_train :=
      take (n - Z.to_nat n_test) (drop (Z.to_nat n_test) (permutation n)) in
    select sample_clean features = Some (X_train sample_tr) ∧
    ceil (fmul test_size (of_nat n)) = Some n_test ∧
    table_rows ind_train (X_train sample_tr) (X_train_split sample_tr) ∧
    (length (permutation n) = n →
       ind_test ++ ind_train = permutation n ∧
       df_index (X_train_split sample_tr) = n - Z.to_nat n_test ∧
       0 < df_index (X_train_split sample_tr)) ∧
    (NoDup (permutation n) → ∀ i, i ∈ ind_train → i ∉ ind_test) ∧
    to_array (X_train_split sample_tr) = Some a_train ∧
    fits (calls (test_scaler sample_ev))
    = [column_names (X_train_split sample_tr)] ∧
    params (scaler sample_tr) = Some p ∧
    params (test_scaler sample_ev) = Some p ∧
    select sample_clean features = Some (X_test sample_ev) ∧
    to_array (X_test sample_ev) = Some a_test ∧
    length (X_test_scaled sample_ev) = length a_test ∧
    length a_train = length a_test ∧
    ∀ c col_tr col_te,
      a_train !! c = Some col_tr → a_test !! c = Some col_te →
      X_test_scaled sample_ev !! c
      = Some ((λ x, fdiv (fsub x (column_mean col_tr)) (column_scale col_tr))
                <$> col_te).
Proof.
  assert (Ht : training (0 : rng) sample_clean = Some sample_tr).
  { reflexivity. }
  assert (He : evaluation sample_tr sample_clean = Some sample_ev).
  { reflexivity. }
  split; [exact Ht|]. split; [exact He|].
  exact (scaler_fitted_once _ _ _ _ _ Ht He).
Defined.

(** C5.  The feature list has six distinct labels, all among the seven
    listed columns other than the target, and the target is not one of
    them; when both cells return, the training and the test feature tables
    carry exactly these labels in this order, and so does the argument of
    the one fit call and of each of the three transform calls. *)
Theorem feature_set_invariant `{Externals} (g : rng)
    (data_train data_test : DataFrame) (tr : Training) (ev : Evaluation) :
  training g data_train = Some tr →
  evaluation tr data_test = Some ev →
  length features = 6 ∧
  NoDup features ∧
  (target ∉ features) ∧
  (features ⊆ filter (λ c, c ≠ target) columns) ∧
  length (filter (λ c, c ≠ target) columns) = 7 ∧
  column_names (X_train tr) = features ∧
  column_names (X_test ev) = features ∧
  fits (calls (test_scaler ev)) = [features] ∧
  transforms (calls (test_scaler ev)) = [features; features; features].
Proof.
  intros Ht He.
  destruct (scaler_history _ _ _ _ _ Ht He) as (Hcalls & Hn & _ & _ & Hn').
  split; [done|].
  split; [apply (bool_decide_unpack _); vm_compute; exact I|].
  split; [apply (bool_decide_unpack _); vm_compute; exact I|].
  split; [apply (bool_decide_unpack _); vm_compute; exact I|].
  split; [done|]. split; [done|]. split; [done|].
  rewrite Hcalls. done.
Qed.

Lemma feature_set_invariant_witness :
  training (0 : rng) sample_clean = Some sample_tr ∧
  evaluation sample_tr sample_clean = Some sample_ev ∧
  length features = 6 ∧
  NoDup features ∧
  (target ∉ features) ∧
  (features ⊆ filter (λ c, c ≠ target) columns) ∧
  length (filter (λ c, c ≠ target) columns) = 7 ∧
  column_names (X_train sample_tr) = features ∧
  column_names (X_test sample_ev) = features ∧
  fits (calls (test_scaler sample_ev)) = [features] ∧
  transforms (calls (test_scaler sample_ev)) = [features; features; features].
Proof.
  assert (Ht : training (0 : rng) sample_clean = Some sample_tr).
  { reflexivity. }
  assert (He : evaluation sample_tr sample_clean = Some sample_ev).
  { reflexivity. }
  split; [exact Ht|]. split; [exact He|].
  exact (feature_set_invariant _ _ _ _ _ Ht He).
Defined.

(** ** Dictionaries built by assignment *)

Lemma foldl_insert_is_Some {A} (items : list (string * A)) (d : gmap string A)
    (k : string) :
  is_Some (foldl (λ d kv, <[kv.1 := kv.2]> d) d items !! k)
  ↔ k ∈ items.*1 ∨ is_Some (d !! k).
Proof.
  revert d. induction items as [|[k' v] items IH]; intros d; simpl.
  - split; [by right|]. intros [Hk|Hk]; [by apply elem_of_nil in Hk|done].
  - rewrite IH, elem_of_cons. destruct (decide (k = k')) as [->|Hne].
    + rewrite lookup_insert_eq. split; [by left; left|]. intros _. right. by eexists.
    + rewrite lookup_insert_ne; [|done]. tauto.
Qed.

Lemma dict_of_is_Some {A} (items : list (string * A)) (k : string) :
  is_Some (dict_of items !! k) ↔ k ∈ items.*1.
Proof.
  unfold dict_of. rewrite foldl_insert_is_Some, lookup_empty.
  split; [intros [Hk|[? Hk]]; [done|discriminate]|by left].
Qed.

(** Two dictionaries assigned in step from two lists with the same keys
    hold related values under every key. *)
Lemma foldl_insert_related {A B} (Q : A → B → Prop)
    (ps : list (string * A)) (rs : list (string * B)) :
  Forall2 (λ p r, r.1 = p.1 ∧ Q p.2 r.2) ps rs →
  ∀ (dp : gmap string A) (dr : gmap string B),
    (∀ k p r, dp !! k = Some p → dr !! k = Some r → Q p r) →
    ∀ k p r,
      foldl (λ d kv, <[kv.1 := kv.2]> d) dp ps !! k = Some p →
      foldl (λ d kv, <[kv.1 := kv.2]> d) dr rs !! k = Some r →
      Q p r.
Proof.
  induction 1 as [|[kp p] [kr r] ps rs [Hk HQ] _ IH]; intros dp dr Hd; simpl.
  - exact Hd.
  - simpl in Hk, HQ. subst kr. apply IH. intros k p' r' Hp Hr.
    destruct (decide (kp = k)) as [->|Hne].
    + rewrite lookup_insert_eq in Hp. rewrite lookup_insert_eq in Hr.
      by injection Hp as <-; injection Hr as <-.
    + rewrite lookup_insert_ne in Hp by done.
      rewrite lookup_insert_ne in Hr by done. by eapply Hd.
Qed.

Lemma dict_of_related {A B} (Q : A → B → Prop)
    (ps : list (string * A)) (rs : list (string * B)) (k : string) (p : A) (r : B) :
  Forall2 (λ p r, r.1 = p.1 ∧ Q p.2 r.2) ps rs →
  dict_of ps !! k = Some p → dict_of rs !! k = Some r → Q p r.
Proof.
  intros Hall. unfold dict_of. apply (foldl_insert_related Q ps rs Hall).
  intros k' p' r' Hp. by rewrite lookup_empty in Hp.
Qed.

Lemma Forall2_keys {A B} (Q : A → B → Prop)
    (ps : list (string * A)) (rs : list (string * B)) :
  Forall2 (λ p r, r.1 = p.1 ∧ Q p.2 r.2) ps rs → rs.*1 = ps.*1.
Proof.
  induction 1 as [|p r ps rs [Hk _] _ IH]; [done|].
  rewrite !fmap_cons. by f_equal.
Qed.

(** ** Metrics *)

Lemma evaluate_all_inv (y : list float) (ps : list (string * list float))
    (rs : list (string * Metrics)) :
  evaluate_all y ps = Some rs →
  Forall2 (λ p r, r.1 = p.1 ∧ metrics_of y p.2 = Some r.2) ps rs.
Proof.
  unfold evaluate_all. intros He. apply mapM_Some in He.
  eapply Forall2_impl; [exact He|]. intros [k p] [k' r] Hpr. simpl in *.
  destruct (metrics_of y p); [|done]. by injection Hpr as <- <-.
Qed.

Lemma predict_all_inv `{Externals} (es : list (string * estimator)) (X : array)
    (ps : list (string * list float)) :
  predict_all es X = Some ps →
  Forall2 (λ e p, p.1 = e.1 ∧ predict e.2 X = Some p.2) es ps.
Proof.
  unfold predict_all. intros Hp. apply mapM_Some in Hp.
  eapply Forall2_impl; [exact Hp|]. intros [k e] [k' p] Hep. simpl in *.
  destruct (predict e X); [|done]. by injection Hep as <- <-.
Qed.

(** The metrics stored for a model are those of the predictions stored for
    it. *)
Lemma results_of_predictions `{Externals} (tr : Training) (data_test : DataFrame)
    (ev : Evaluation) (k : string) (preds : list float) (m : Metrics) :
  evaluation tr data_test = Some ev →
  predictions ev !! k = Some preds →
  results ev !! k = Some m →
  metrics_of (y_test ev) preds = Some m.
Proof.
  intros He Hp Hr.
  apply evaluation_inv in He
    as (_ & _ & ps & rs & ys & _ & _ & _ & Hev & Hps & Hrs).
  rewrite Hps in Hp. rewrite Hrs in Hr.
  exact (dict_of_related (λ p r, metrics_of (y_test ev) p = Some r)
           ps rs k preds m (evaluate_all_inv _ _ _ Hev) Hp Hr).
Qed.

(** The three model keys are keys of both dictionaries. *)
Lemma evaluation_keys `{Externals} (g : rng) (data_train data_test : DataFrame)
    (tr : Training) (ev : Evaluation) (k : string) :
  training g data_train = Some tr →
  evaluation tr data_test = Some ev →
  k ∈ models.*1 →
  is_Some (predictions ev !! k) ∧ is_Some (results ev !! k).
Proof.
  intros Ht He Hk.
  apply training_inv in Ht as (_ & _ & _ & _ & _ & Hkeys).
  apply evaluation_inv in He
    as (_ & _ & ps & rs & ys & Hpred & _ & _ & Hev & Hps & Hrs).
  apply predict_all_inv in Hpred.
  apply (Forall2_keys (λ e p, predict e (X_test_scaled ev) = Some p)) in Hpred.
  apply evaluate_all_inv in Hev.
  apply (Forall2_keys (λ p r, metrics_of (y_test ev) p = Some r)) in Hev.
  rewrite Hps, Hrs, !dict_of_is_Some, Hev, Hpred, Hkeys. done.
Qed.

Lemma metrics_of_inv (y preds : list float) (m : Metrics) :
  metrics_of y preds = Some m →
  mean_squared_error y preds = Some (MSE m) ∧
  RMSE m = fsqrt (MSE m) ∧
  MAPE m = mape y preds.
Proof.
  unfold metrics_of. intros Hm.
  destruct (mean_squared_error y preds) as [mse|]; [|done].
  cbn [mbind option_bind] in Hm.
  destruct (math_sqrt mse) as [rmse|] eqn:Hsqrt; [|done].
  cbn [mbind option_bind] in Hm. injection Hm as <-. simpl.
  split; [done|]. split; [|done].
  unfold math_sqrt in Hsqrt.
  destruct mse as [| [] | | [] ];
    first [discriminate Hsqrt | by injection Hsqrt as <-].
Qed.

(** ** The sign of the mean squared error *)

Lemma sign_clear_round_aux (m e : Z) (l : location) :
  sign_clear (binary_round_aux prec emax false m e l) = true.
Proof.
  unfold binary_round_aux.
  destruct (shr_fexp prec emax m e l) as [mrs e'].
  destruct (shr_fexp prec emax _ e' loc_Exact) as [mrs' e''].
  destruct (shr_m mrs'); [done| |done].
  by destruct (Z.leb e'' (Z.sub emax prec)).
Qed.

Lemma sign_clear_round (m : positive) (e : Z) :
  sign_clear (binary_round prec emax false m e) = true.
Proof.
  unfold binary_round. destruct (shl_align _ _ _) as [mz ez].
  apply sign_clear_round_aux.
Qed.

Lemma sign_clear_square (d : float) : sign_clear (fmul d d) = true.
Proof.
  destruct d as [[]|[]| |s m e]; try done.
  unfold fmul, SFmul. replace (xorb s s) with false by (by destruct s).
  apply sign_clear_round_aux.
Qed.

Lemma sign_clear_fadd (a b : float) :
  sign_clear a = true → sign_clear b = true → sign_clear (fadd a b) = true.
Proof.
  destruct a as [[]|[]| |[] ma ea], b as [[]|[]| |[] mb eb]; try done.
  intros _ _. unfold fadd, SFadd, cond_Zopp, binary_normalize.
  cbn [Z.add]. apply sign_clear_round.
Qed.

Lemma sign_clear_fdiv (a b : float) :
  sign_clear a = true → sign_clear b = true → sign_clear (fdiv a b) = true.
Proof.
  destruct a as [[]|[]| |[] ma ea], b as [[]|[]| |[] mb eb]; try done.
  intros _ _. unfold fdiv, SFdiv.
  destruct (SFdiv_core_binary _ _ _ _ _ _) as [[mz ez] lz].
  apply sign_clear_round_aux.
Qed.

Lemma sign_clear_of_nat (n : nat) : sign_clear (of_nat n) = true.
Proof.
  unfold of_nat, of_Z, binary_normalize.
  destruct (Z.of_nat n) eqn:Hn; [done| |lia]. apply sign_clear_round.
Qed.

Lemma sign_clear_fsum (xs : list float) :
  Forall (λ x, sign_clear x = true) xs → sign_clear (fsum xs) = true.
Proof.
  intros Hall. destruct Hall as [|x xs Hx Hall]; [done|]. simpl.
  revert x Hx. induction Hall as [|x' xs Hx' _ IH]; intros x Hx; simpl; [done|].
  by apply IH, sign_clear_fadd.
Qed.

Lemma math_sqrt_sign_clear (x : float) :
  sign_clear x = true → math_sqrt x = Some (fsqrt x).
Proof. by destruct x as [[]|[]| |[] m e]. Qed.

(** The mean squared error, when it is computed, has a clear sign bit. *)
Lemma mean_squared_error_sign_clear (y p : list float) (mse : float) :
  mean_squared_error y p = Some mse → sign_clear mse = true.
Proof.
  unfold mean_squared_error. intros Hm.
  destruct (decide _); [|done]. destruct y as [|y0 y]; [done|].
  destruct (_ && _); [|done]. injection Hm as <-.
  apply sign_clear_fdiv; [|apply sign_clear_of_nat].
  apply sign_clear_fsum, Forall_fmap, Forall_forall.
  intros d _. apply sign_clear_square.
Qed.

(** ** Rounding to binary64 *)

Section binary64_rounding.
Local Open Scope Z_scope.

Lemma digits2_pos_log2 (p : positive) :
  Zpos (digits2_pos p) = Z.log2 (Zpos p) + 1.
Proof.
  assert (H : ∀ q, digits2_pos q = Pos.size q).
  { induction q; simpl; congruence. }
  destruct p; simpl; rewrite ?H; lia.
Qed.

Lemma digits2_pos_bounds (p : positive) :
  2 ^ (Zpos (digits2_pos p) - 1) ≤ Zpos p < 2 ^ Zpos (digits2_pos p).
Proof.
  rewrite digits2_pos_log2.
  replace (Z.log2 (Zpos p) + 1 - 1) with (Z.log2 (Zpos p)) by lia.
  apply Z.log2_spec. lia.
Qed.

Lemma digits2_pos_unique (p : positive) (k : Z) :
  0 ≤ k → 2 ^ k ≤ Zpos p < 2 ^ (k + 1) → Zpos (digits2_pos p) = k + 1.
Proof.
  intros Hk Hp. rewrite digits2_pos_log2. f_equal.
  apply Z.log2_unique; [lia|]. exact Hp.
Qed.

Lemma shr_1_div2 (mrs : shr_record) :
  0 ≤ shr_m mrs → shr_m (shr_1 mrs) = shr_m mrs / 2.
Proof.
  destruct mrs as [m r s]. simpl. intros Hm. rewrite <- Z.div2_div.
  destruct m as [|[p|p|]|p]; simpl; try reflexivity; lia.
Qed.

Lemma pow2_xI (n : positive) : 2 ^ Z.pos n~1 = 2 * (2 ^ Z.pos n * 2 ^ Z.pos n).
Proof. rewrite Pos2Z.inj_xI, <- !Z.pow_add_r, <- Z.pow_succ_r by lia. f_equal. lia. Qed.

Lemma pow2_xO (n : positive) : 2 ^ Z.pos n~0 = 2 ^ Z.pos n * 2 ^ Z.pos n.
Proof. rewrite Pos2Z.inj_xO, <- !Z.pow_add_r by lia. f_equal. lia. Qed.

Lemma iter_shr_1_div (n : positive) (mrs : shr_record) :
  0 ≤ shr_m mrs →
  shr_m (SpecFloat.iter_pos shr_1 n mrs) = shr_m mrs / 2 ^ Zpos n.
Proof.
  revert mrs.
  induction n as [n IH|n IH|]; intros mrs Hm; simpl SpecFloat.iter_pos.
  - assert (0 ≤ shr_m (shr_1 mrs)) as H1.
    { rewrite shr_1_div2 by done. apply Z.div_pos; lia. }
    assert (0 ≤ shr_m (SpecFloat.iter_pos shr_1 n (shr_1 mrs))) as H2.
    { rewrite IH by done. apply Z.div_pos; [lia|]. apply Z.pow_pos_nonneg; lia. }
    pose proof (Z.pow_pos_nonneg 2 (Z.pos n)) as Hpos.
    rewrite IH, IH, shr_1_div2, pow2_xI by done.
    rewrite !Z.div_div by lia. reflexivity.
  - assert (0 ≤ shr_m (SpecFloat.iter_pos shr_1 n mrs)) as H2.
    { rewrite IH by done. apply Z.div_pos; [lia|]. apply Z.pow_pos_nonneg; lia. }
    pose proof (Z.pow_pos_nonneg 2 (Z.pos n)) as Hpos.
    rewrite IH, IH, pow2_xO by done.
    rewrite !Z.div_div by lia. reflexivity.
  - rewrite shr_1_div2 by done. reflexivity.
Qed.


Lemma loc_of_shr_record_of_loc (m : Z) (l : location) :
  loc_of_shr_record (shr_record_of_loc m l) = l.
Proof. by destruct l as [|[]]. Qed.

Lemma shr_m_of_loc (m : Z) (l : location) :
  shr_m (shr_record_of_loc m l) = m.
Proof. by destruct l as [|[]]. Qed.

Lemma shr_fexp_nonneg (m e : Z) (l : location) :
  0 ≤ m → 0 ≤ shr_m (shr_fexp prec emax m e l).1.
Proof.
  intros Hm. unfold shr_fexp, shr.
  destruct (fexp prec emax (Zdigits2 m + e) - e) as [|n|n]; simpl;
    rewrite ?iter_shr_1_div; rewrite ?shr_m_of_loc; try done.
  apply Z.div_pos; [done|]. apply Z.pow_pos_nonneg; lia.
Qed.

Lemma round_nearest_even_bounds (m : Z) (l : location) :
  m ≤ round_nearest_even m l ≤ m + 1.
Proof. destruct l as [|[]]; simpl; try destruct (Z.even m); lia. Qed.

(** What rounding returns as a finite number has at most 53 digits and an
    exponent in the binary64 range. *)
Lemma binary_round_aux_bounded (s s' : bool) (m e e' : Z) (l : location)
    (p : positive) :
  0 ≤ m →
  binary_round_aux prec emax s m e l = S754_finite s' p e' →
  Zpos (digits2_pos p) ≤ 53 ∧ -1074 ≤ e' ≤ 971.
Proof.
  intros Hm. unfold binary_round_aux.
  pose proof (shr_fexp_nonneg m e l Hm) as H1.
  destruct (shr_fexp prec emax m e l) as [mrs1 e1]. simpl in H1.
  pose proof (round_nearest_even_bounds (shr_m mrs1) (loc_of_shr_record mrs1))
    as H2.
  set (m2 := round_nearest_even _ _) in *.
  unfold shr_fexp, shr.
  destruct (fexp prec emax (Zdigits2 m2 + e1) - e1) as [|n|n] eqn:Hn.
  - cbn [shr_record_of_loc shr_m]. destruct m2 as [|q|q] eqn:Hq; [done| |done].
    destruct (Z.leb_spec e1 (emax - prec)) as [He|He]; [|done].
    intros [= <- <- <-]. unfold fexp, emin, emax, prec in *.
    cbn [Zdigits2] in Hn. lia.
  - rewrite iter_shr_1_div by (cbn; lia). cbn [shr_record_of_loc shr_m].
    destruct (m2 / 2 ^ Z.pos n) as [|q|q] eqn:Hq; [done| |done].
    destruct (Z.leb_spec (e1 + Z.pos n) (emax - prec)) as [He|He]; [|done].
    intros [= <- <- <-]. unfold fexp, emin, emax, prec in *.
    split; [|lia].
    destruct m2 as [|q2|q2]; [done| |lia]. cbn [Zdigits2] in Hn.
    pose proof (digits2_pos_bounds q2) as [_ Hq2].
    rewrite digits2_pos_log2.
    assert (Z.log2 (Z.pos q) < 53); [|lia].
    apply Z.log2_lt_pow2; [lia|]. rewrite <- Hq.
    apply Z.div_lt_upper_bound; [apply Z.pow_pos_nonneg; lia|].
    rewrite <- Z.pow_add_r by lia.
    eapply Z.lt_le_trans; [exact Hq2|].
    apply Z.pow_le_mono_r; lia.
  - cbn [shr_record_of_loc shr_m]. destruct m2 as [|q|q] eqn:Hq; [done| |done].
    destruct (Z.leb_spec e1 (emax - prec)) as [He|He]; [|done].
    intros [= <- <- <-]. unfold fexp, emin, emax, prec in *.
    cbn [Zdigits2] in Hn. lia.
Qed.

Lemma fdiv_bounded (a b : float) (s : bool) (p : positive) (e : Z) :
  fdiv a b = S754_finite s p e →
  Zpos (digits2_pos p) ≤ 53 ∧ -1074 ≤ e ≤ 971.
Proof.
  destruct a as [| | |sa ma ea], b as [| | |sb mb eb]; try done.
  unfold fdiv, SFdiv, SFdiv_core_binary.
  set (m' := match _ - _ - _ with Z.pos _ => _ | Z0 => _ | _ => _ end).
  assert (0 ≤ m') as Hm'.
  { subst m'. destruct (_ - _ - _); [lia| |lia]. by apply Z.shiftl_nonneg. }
  pose proof (Z_div_mod m' (Z.pos mb) ltac:(lia)) as Hdiv.
  destruct (Z.div_eucl m' (Z.pos mb)) as [q r].
  apply binary_round_aux_bounded. nia.
Qed.


Lemma digits2_pos_53 (q : positive) :
  2 ^ 52 ≤ Z.pos q < 2 ^ 53 → Z.pos (digits2_pos q) = 53.
Proof. intros Hq. by apply (digits2_pos_unique q 52). Qed.

(** Rounding a 53-digit number whose exponent is in range: the number or
    its successor, as the location says. *)
Lemma binary_round_aux_53 (q e : Z) (l : location) :
  2 ^ 52 ≤ q < 2 ^ 53 → -1074 ≤ e ≤ 970 →
  ∃ mr er,
    binary_round_aux prec emax false q e l = S754_finite false mr er ∧
    0 ≤ er - e ∧
    Z.pos mr * 2 ^ (er - e) = round_nearest_even q l.
Proof.
  intros Hq He. unfold binary_round_aux. unfold shr_fexp at 1.
  destruct q as [|q|q]; [lia| |lia]. cbn [Zdigits2].
  rewrite (digits2_pos_53 q Hq).
  replace (fexp prec emax (53 + e) - e) with 0
    by (unfold fexp, emin, emax, prec; lia).
  cbn [shr]. rewrite loc_of_shr_record_of_loc, shr_m_of_loc.
  pose proof (round_nearest_even_bounds (Z.pos q) l) as HR.
  set (R := round_nearest_even (Z.pos q) l) in *.
  unfold shr_fexp. destruct R as [|r|r] eqn:HRr; [lia| |lia]. cbn [Zdigits2].
  destruct (decide (Z.pos r < 2 ^ 53)) as [Hlt|Hge].
  - rewrite (digits2_pos_53 r) by lia.
    replace (fexp prec emax (53 + e) - e) with 0
      by (unfold fexp, emin, emax, prec; lia).
    cbn [shr shr_record_of_loc shr_m].
    destruct (Z.leb_spec e (emax - prec)) as [_|Hbad];
      [|unfold emax, prec in Hbad; lia].
    exists r, e. split; [done|]. rewrite Z.sub_diag. split; [done|]. lia.
  - assert (Z.pos r = 2 ^ 53) as Hr by lia.
    rewrite (digits2_pos_unique r 53) by lia.
    replace (fexp prec emax (53 + 1 + e) - e) with 1
      by (unfold fexp, emin, emax, prec; lia).
    cbn [shr]. rewrite iter_shr_1_div by (cbn; lia).
    cbn [shr_record_of_loc shr_m]. rewrite Hr.
    change (2 ^ 53 / 2 ^ 1) with (Z.pos (2 ^ 52)).
    destruct (Z.leb_spec (e + 1) (emax - prec)) as [_|Hbad];
      [|unfold emax, prec in Hbad; lia].
    exists (2 ^ 52)%positive, (e + 1). split; [done|].
    replace (e + 1 - e) with 1 by lia. done.
Qed.

(** The square root of a positive binary64 number: the result is finite,
    and over the common exponent [e'] its mantissa [R] is the integer
    square root of the scaled argument or the successor of it, within
    relative distance 2^-52 after squaring. *)
Lemma SFsqrt_finite (mx : positive) (ex : Z) :
  Z.pos (digits2_pos mx) ≤ 53 → -1074 ≤ ex ≤ 971 →
  ∃ mr er e',
    fsqrt (S754_finite false mx ex) = S754_finite false mr er ∧
    0 ≤ ex - 2 * e' ∧ 0 ≤ er - e' ∧
    let R := Z.pos mr * 2 ^ (er - e') in
    let M := Z.pos mx * 2 ^ (ex - 2 * e') in
    Z.abs (R * R - M) * 2 ^ 52 ≤ M.
Proof.
  intros Hd He. unfold fsqrt, SFsqrt, SFsqrt_core_binary. cbn [Zdigits2].
  pose proof (digits2_pos_bounds mx) as Hmx.
  set (d := Z.pos (digits2_pos mx)) in *.
  assert (1 ≤ d) as Hd1 by (subst d; lia).
  set (E := Z.div2 (d + ex + 1)).
  assert (2 * E ≤ d + ex + 1 ≤ 2 * E + 1) as HE.
  { subst E. pose proof (Z.div2_odd (d + ex + 1)) as Hodd.
    destruct (Z.odd _); simpl in Hodd; lia. }
  assert (2 * Z.div2 ex ≤ ex ≤ 2 * Z.div2 ex + 1) as HE2.
  { pose proof (Z.div2_odd ex) as Hodd. destruct (Z.odd _); simpl in Hodd; lia. }
  replace (Z.min (fexp prec emax E) (Z.div2 ex)) with (E - 53)
    by (unfold fexp, emin, emax, prec; lia).
  destruct (ex - 2 * (E - 53)) as [|s|s] eqn:Hs; [lia| |lia].
  rewrite Z.shiftl_mul_pow2 by lia.
  assert (2 ^ 104 ≤ Z.pos mx * 2 ^ Z.pos s < 2 ^ 106) as HM.
  { pose proof (Z.pow_pos_nonneg 2 (Z.pos s)) as Hpos.
    split.
    - apply Z.le_trans with (2 ^ (d - 1) * 2 ^ Z.pos s);
        [|apply Z.mul_le_mono_nonneg_r; lia].
      rewrite <- Z.pow_add_r by lia. apply Z.pow_le_mono_r; lia.
    - apply Z.lt_le_trans with (2 ^ d * 2 ^ Z.pos s);
        [apply Z.mul_lt_mono_pos_r; lia|].
      rewrite <- Z.pow_add_r by lia. apply Z.pow_le_mono_r; lia. }
  set (M := Z.pos mx * 2 ^ Z.pos s) in *.
  pose proof (Z.sqrtrem_spec M ltac:(lia)) as Hsq.
  destruct (Z.sqrtrem M) as [q r]. destruct Hsq as [HMq Hr].
  assert (2 ^ 52 ≤ q < 2 ^ 53) as Hq.
  { split.
    - destruct (Z.le_gt_cases (2 ^ 52) q) as [|Hlt]; [done|].
      assert ((q + 1) * (q + 1) ≤ 2 ^ 52 * 2 ^ 52)
        by (apply Z.mul_le_mono_nonneg; lia).
      change (2 ^ 52 * 2 ^ 52) with (2 ^ 104) in *. lia.
    - destruct (Z.lt_ge_cases q (2 ^ 53)) as [|Hge]; [done|].
      assert (2 ^ 53 * 2 ^ 53 ≤ q * q)
        by (apply Z.mul_le_mono_nonneg; lia).
      change (2 ^ 53 * 2 ^ 53) with (2 ^ 106) in *. lia. }
  set (l := if r =? 0 then loc_Exact else _).
  destruct (binary_round_aux_53 q (E - 53) l Hq ltac:(lia))
    as (mr & er & -> & Her & HR).
  exists mr, er, (E - 53). split; [done|]. split; [lia|]. split; [done|].
  cbn zeta. rewrite HR, Hs. fold M.
  assert (Z.abs (round_nearest_even q l * round_nearest_even q l - M) ≤ q)
    as Habs.
  { subst l. destruct (Z.eqb_spec r 0) as [->|Hr0]; simpl; [lia|].
    destruct (Z.leb_spec r q); simpl; lia. }
  apply Z.le_trans with (q * 2 ^ 52); [apply Z.mul_le_mono_nonneg_r; lia|].
  apply Z.le_trans with (q * q); [apply Z.mul_le_mono_nonneg_l; lia|lia].
Qed.

End binary64_rounding.

(** The mean squared error, when it is a finite number, is a binary64
    number. *)
Lemma mean_squared_error_representable (y p : list float) (mse : float) :
  mean_squared_error y p = Some mse → representable mse.
Proof.
  unfold mean_squared_error. intros Hm.
  destruct (decide _); [|done]. destruct y as [|y0 y]; [done|].
  destruct (_ && _); [|done]. injection Hm as <-.
  destruct (fdiv _ _) as [| | |s0 m0 e0] eqn:Hdiv; try done.
  exact (fdiv_bounded _ _ _ _ _ Hdiv).
Qed.

(** ** The exact value of a square root *)

Section exact_values.
Local Open Scope Q_scope.

Lemma Qpower_2_pos (e : Z) : 0 < 2 ^ e.
Proof. by apply Qpower_0_lt. Qed.

Lemma Qpower_2_split (a b : Z) : 2 ^ (a + b) == 2 ^ a * 2 ^ b.
Proof. by apply Qpower_plus. Qed.

(** A mantissa over a larger exponent is the scaled mantissa over the
    smaller one. *)
Lemma F2Q_scaled (m : positive) (e e' : Z) :
  (0 ≤ e - e')%Z →
  F2Q (S754_finite false m e) == inject_Z (Z.pos m * 2 ^ (e - e')) * 2 ^ e'.
Proof.
  intros He. simpl.
  rewrite inject_Z_mult, (Zpower_Qpower 2 (e - e') He), <- Qmult_assoc.
  rewrite <- Qpower_2_split. by replace (e - e' + e')%Z with e by lia.
Qed.

Lemma fsqrt_square (x : float) :
  sign_clear x = true → representable x → is_finite x = true →
  is_finite (fsqrt x) = true ∧
  Qabs (F2Q (fsqrt x) * F2Q (fsqrt x) - F2Q x) <= F2Q x * (1 # 2 ^ 52).
Proof.
  intros Hs Hx Hf. destruct x as [s| | |[] mx ex]; try done.
  destruct Hx as [Hd He].
  destruct (SFsqrt_finite mx ex Hd He) as (mr & er & e' & -> & H1 & H2 & HR).
  split; [done|]. cbn zeta in HR.
  rewrite (F2Q_scaled mr er e' H2).
  assert (F2Q (S754_finite false mx ex)
          == inject_Z (Z.pos mx * 2 ^ (ex - 2 * e')) * (2 ^ e' * 2 ^ e')) as ->.
  { rewrite <- Qpower_2_split. replace (e' + e')%Z with (2 * e')%Z by lia.
    by apply F2Q_scaled. }
  set (R := (Z.pos mr * 2 ^ (er - e'))%Z) in *.
  set (M := (Z.pos mx * 2 ^ (ex - 2 * e'))%Z) in *.
  pose proof (Qpower_2_pos e') as Ht. set (t := 2 ^ e') in *.
  assert (inject_Z R * t * (inject_Z R * t) - inject_Z M * (t * t)
          == inject_Z (R * R - M) * (t * t)) as ->.
  { unfold Z.sub. rewrite inject_Z_plus, inject_Z_mult, inject_Z_opp. ring. }
  assert (0 <= t * t) as Htt by (apply Qmult_le_0_compat; by apply Qlt_le_weak).
  rewrite Qabs_Qmult, (Qabs_pos (t * t) Htt).
  change (Qabs (inject_Z (R * R - M))) with (inject_Z (Z.abs (R * R - M))).
  assert (inject_Z M * (t * t) * (1 # 2 ^ 52)
          == inject_Z M * (1 # 2 ^ 52) * (t * t)) as -> by ring.
  apply Qmult_le_compat_r; [|done].
  unfold Qle. simpl. lia.
Qed.

End exact_values.

(** C6.  For every model the stored MSE is the mean squared error of the
    stored predictions against the test target and the stored RMSE is the
    binary64 square root of that same number.  When the MSE is finite so is
    the RMSE, and the square of the number the RMSE stands for is the
    number the MSE stands for up to the rounding of the square root: the
    two differ by at most 2^-52 times the MSE (by nothing when the MSE is
    zero).  When the MSE has overflowed, the RMSE is that same infinity. *)
Theorem rmse_squared_is_mse `{Externals} (tr : Training) (data_test : DataFrame)
    (ev : Evaluation) (k : string) (preds : list float) (m : Metrics) :
  evaluation tr data_test = Some ev →
  predictions ev !! k = Some preds →
  results ev !! k = Some m →
  mean_squared_error (y_test ev) preds = Some (MSE m) ∧
  RMSE m = fsqrt (MSE m) ∧
  (is_finite (MSE m) = true →
     is_finite (RMSE m) = true ∧
     (Qabs (F2Q (RMSE m) * F2Q (RMSE m) - F2Q (MSE m))
      <= F2Q (MSE m) * (1 # 2 ^ 52))%Q) ∧
  (is_finite (MSE m) = false → RMSE m = MSE m).
Proof.
  intros He Hp Hr.
  pose proof (results_of_predictions _ _ _ _ _ _ He Hp Hr) as Hm.
  apply metrics_of_inv in Hm as (Hmse & Hrmse & _).
  pose proof (mean_squared_error_sign_clear _ _ _ Hmse) as Hsign.
  pose proof (mean_squared_error_representable _ _ _ Hmse) as Hrep.
  split; [done|]. split; [done|]. rewrite Hrmse. split.
  - intros Hfin. by apply fsqrt_square.
  - intros Hinf. by destruct (MSE m) as [|[]| |].
Qed.

Lemma rmse_squared_is_mse_witness :
  evaluation sample_tr sample_clean = Some sample_ev ∧
  ∃ preds m,
    predictions sample_ev !! "lr" = Some preds ∧
    results sample_ev !! "lr" = Some m ∧
    is_finite (MSE m) = true ∧ is_zero (MSE m) = false ∧
    mean_squared_error (y_test sample_ev) preds = Some (MSE m) ∧
    RMSE m = fsqrt (MSE m) ∧
    (is_finite (MSE m) = true →
       is_finite (RMSE m) = true ∧
       (Qabs (F2Q (RMSE m) * F2Q (RMSE m) - F2Q (MSE m))
        <= F2Q (MSE m) * (1 # 2 ^ 52))%Q) ∧
    (is_finite (MSE m) = false → RMSE m = MSE m).
Proof.
  assert (He : evaluation sample_tr sample_clean = Some sample_ev).
  { reflexivity. }
  split; [exact He|].
  destruct (predictions sample_ev !! "lr") as [preds|] eqn:Hp;
    [|vm_compute in Hp; discriminate Hp].
  destruct (results sample_ev !! "lr") as [m|] eqn:Hr;
    [|vm_compute in Hr; discriminate Hr].
  exists preds, m. split; [reflexivity|]. split; [reflexivity|].
  assert (is_finite (MSE m) = true ∧ is_zero (MSE m) = false) as [Hfin Hnz].
  { pose proof Hr as Hr'. vm_compute in Hr'. injection Hr' as <-.
    split; reflexivity. }
  split; [exact Hfin|]. split; [exact Hnz|].
  exact (rmse_squared_is_mse sample_tr sample_clean sample_ev "lr" preds m
           He Hp Hr).
Defined.

(** The bound is about the exact square.  Squaring the RMSE in binary64
    rounds once more and need not give the MSE back bit for bit: for the
    targets [0.0, 0.0] and the predictions [2.0, 0.0] the MSE is 2.0, the
    RMSE is the rounded square root of 2, and its binary64 square is the
    float next above 2.0. *)
Lemma rmse_squared_differs :
  ∃ m, metrics_of [pzero; pzero] [of_Z 2; pzero] = Some m ∧
       fmul (RMSE m) (RMSE m) ≠ MSE m.
Proof.
  eexists. split; [vm_compute; reflexivity|]. vm_compute. discriminate.
Qed.

(** ** MAPE on a zero target *)

Lemma fadd_not_finite_l (a b : float) :
  is_finite a = false → is_finite (fadd a b) = false.
Proof. by destruct a as [| [] | |], b as [| [] | |]. Qed.

Lemma fadd_not_finite_r (a b : float) :
  is_finite b = false → is_finite (fadd a b) = false.
Proof. by destruct a as [| [] | |], b as [| [] | |]. Qed.

Lemma fdiv_not_finite_l (a b : float) :
  is_finite a = false → is_finite (fdiv a b) = false.
Proof. by destruct a as [| [] | |], b as [| [] | |]. Qed.

Lemma fmul_hundred_not_finite (a : float) :
  is_finite a = false → is_finite (fmul a hundred) = false.
Proof. by destruct a as [| [] | |]. Qed.

Lemma fold_fadd_not_finite_acc (xs : list float) (acc : float) :
  is_finite acc = false → is_finite (fold_left fadd xs acc) = false.
Proof.
  revert acc. induction xs as [|x xs IH]; intros acc Hacc; simpl; [done|].
  by apply IH, fadd_not_finite_l.
Qed.

(** A sum with an infinity or a NaN among its terms is not finite. *)
Lemma fsum_not_finite (xs : list float) (x : float) :
  x ∈ xs → is_finite x = false → is_finite (fsum xs) = false.
Proof.
  intros Hin Hx. destruct xs as [|x0 xs]; [by apply elem_of_nil in Hin|].
  simpl. apply elem_of_cons in Hin as [<-|Hin].
  - by apply fold_fadd_not_finite_acc.
  - generalize x0. induction xs as [|x1 xs IH]; intros acc.
    + by apply elem_of_nil in Hin.
    + simpl. apply elem_of_cons in Hin as [<-|Hin].
      * by apply fold_fadd_not_finite_acc, fadd_not_finite_r.
      * by apply IH.
Qed.

(** The mean that skips NaN is not finite once an infinity is among the
    entries. *)
Lemma nanmean_not_finite (xs : list float) (s : bool) :
  S754_infinity s ∈ xs → is_finite (nanmean xs) = false.
Proof.
  intros Hin. unfold nanmean.
  destruct (decide _) as [Hcount|_]; [done|].
  apply fdiv_not_finite_l.
  apply (fsum_not_finite _ (S754_infinity s)); [|done].
  by apply (list_elem_of_fmap_2 (λ x, if is_nan x then pzero else x)
              _ (S754_infinity s)).
Qed.

(** The percentage error of a row with target zero and a prediction that
    is neither zero nor NaN is an infinity. *)
Lemma zero_target_term (yi pi : float) :
  is_zero yi = true → is_zero pi = false → is_nan pi = false →
  fabs (fdiv (fsub yi pi) yi) = pinf.
Proof. by destruct yi as [| | |], pi as [| [] | | []]. Qed.

Lemma mape_not_finite (y preds : list float) (i : nat) (yi pi : float) :
  y !! i = Some yi → preds !! i = Some pi →
  is_zero yi = true → is_zero pi = false → is_nan pi = false →
  is_finite (mape y preds) = false.
Proof.
  intros Hy Hp Hyi Hpi Hnan. unfold mape.
  apply fmul_hundred_not_finite, (nanmean_not_finite _ false).
  apply list_elem_of_lookup. exists i.
  rewrite list_lookup_fmap, !lookup_zip_with, Hy, Hp. simpl.
  f_equal. by apply zero_target_term.
Qed.

(** C2, as the code has it.  For every model, if some test row has target
    zero and a prediction other than zero, the stored MAPE is an infinity
    or a NaN. *)
Theorem mape_zero_target `{Externals} (tr : Training) (data_test : DataFrame)
    (ev : Evaluation) (k : string) (preds : list float) (m : Metrics)
    (i : nat) (yi pi : float) :
  evaluation tr data_test = Some ev →
  predictions ev !! k = Some preds →
  results ev !! k = Some m →
  y_test ev !! i = Some yi →
  preds !! i = Some pi →
  is_zero yi = true →
  is_zero pi = false →
  is_finite (MAPE m) = false.
Proof.
  intros He Hp Hr Hy Hpi Hzero Hnz.
  pose proof (results_of_predictions _ _ _ _ _ _ He Hp Hr) as Hm.
  apply metrics_of_inv in Hm as (Hmse & _ & ->).
  apply (mape_not_finite _ _ i yi pi); try done.
  (* the predictions passed the finiteness check of the MSE *)
  unfold mean_squared_error in Hmse.
  destruct (decide _); [|done]. destruct (y_test ev); [done|].
  destruct (forallb is_finite (_ :: _)); [|done].
  destruct (forallb is_finite preds) eqn:Hfin; [|done].
  rewrite forallb_forall in Hfin.
  assert (is_finite pi = true) as Hf.
  { apply Hfin, list_elem_of_In. by eapply list_elem_of_lookup_2. }
  by destruct pi.
Qed.

Lemma mape_zero_target_witness :
  evaluation sample_tr sample_clean = Some sample_ev ∧
  ∃ preds m yi pi,
    predictions sample_ev !! "lr" = Some preds ∧
    results sample_ev !! "lr" = Some m ∧
    y_test sample_ev !! 0 = Some yi ∧
    preds !! 0 = Some pi ∧
    is_zero yi = true ∧
    is_zero pi = false ∧
    is_finite (MAPE m) = false.
Proof.
  assert (He : evaluation sample_tr sample_clean = Some sample_ev).
  { reflexivity. }
  split; [exact He|].
  pose (preds := default [] (predictions sample_ev !! "lr")).
  pose (m := default (mkMetrics nan nan nan) (results sample_ev !! "lr")).
  pose (pi := default nan (preds !! 0)).
  assert (Hp : predictions sample_ev !! "lr" = Some preds).
  { vm_compute. reflexivity. }
  assert (Hr : results sample_ev !! "lr" = Some m).
  { vm_compute. reflexivity. }
  assert (Hy : y_test sample_ev !! 0 = Some pzero).
  { vm_compute. reflexivity. }
  assert (Hpi : preds !! 0 = Some pi).
  { vm_compute. reflexivity. }
  assert (Hz : is_zero pzero = true) by reflexivity.
  assert (Hnz : is_zero pi = false).
  { vm_compute. reflexivity. }
  exists preds, m, pzero, pi.
  split; [exact Hp|]. split; [exact Hr|]. split; [exact Hy|].
  split; [exact Hpi|]. split; [exact Hz|]. split; [exact Hnz|].
  exact (mape_zero_target sample_tr sample_clean sample_ev "lr" preds m 0
           pzero pi He Hp Hr Hy Hpi Hz Hnz).
Defined.

(** C2, as stated, fails: with the targets [0.0, 1.0] predicted exactly,
    the row with target zero gives 0/0, which the mean skips, and the MAPE
    is the finite 0.0. *)
Lemma mape_finite_with_zero_target :
  ∃ m, metrics_of [pzero; of_Z 1] [pzero; of_Z 1] = Some m ∧
       is_zero pzero = true ∧
       pzero ∈ [pzero; of_Z 1] ∧
       is_finite (MAPE m) = true.
Proof.
  eexists. split; [vm_compute; reflexivity|]. split; [reflexivity|].
  split; [apply list_elem_of_here|]. vm_compute. reflexivity.
Qed.

(** ** Dashboard *)

(** C4.  When both cells have returned and the selected key is one of the
    three model keys: with a positive click count the callback returns a
    chart whose series are exactly "Predicted", drawn from the stored
    predictions of that model, and "Actual", drawn from the test target,
    together with the three metric texts of that model, the first of which
    begins with "RMSE:"; with a click count of zero it returns the empty
    chart and three empty texts. *)
Theorem update_output_spec `{Externals} (g : rng)
    (data_train data_test : DataFrame) (tr : Training) (ev : Evaluation)
    (n_clicks : Z) (model_type : string) :
  training g data_train = Some tr →
  evaluation tr data_test = Some ev →
  model_type ∈ ["lr"; "rf"; "svm"] →
  ((n_clicks > 0)%Z →
     ∃ preds metrics fig s1 s2 s3,
       predictions ev !! model_type = Some preds ∧
       results ev !! model_type = Some metrics ∧
       update_output ev n_clicks model_type = Some (fig, s1, s2, s3) ∧
       fig_data fig
       = [mkScatter (seq 0 (length (y_test ev))) preds "lines+markers" "Predicted";
          mkScatter (seq 0 (length (y_test ev))) (y_test ev) "lines" "Actual"] ∧
       sc_name <$> fig_data fig = ["Predicted"; "Actual"] ∧
       s1 = "RMSE: " +:+ float_str (RMSE metrics) ∧
       s2 = "MSE: " +:+ float_str (MSE metrics) ∧
       s3 = "MAPE: " +:+ float_str (MAPE metrics) ∧
       String.prefix "RMSE:" s1 = true) ∧
  (n_clicks = 0%Z →
     update_output ev n_clicks model_type
     = Some (empty_figure, EmptyString, EmptyString, EmptyString)).
Proof.
  intros Ht He Hkey.
  destruct (evaluation_keys g data_train data_test tr ev model_type Ht He Hkey)
    as [[preds Hp] [metrics Hr]].
  split.
  - intros Hpos. unfold update_output.
    rewrite bool_decide_eq_true_2 by done. rewrite Hp, Hr. simpl.
    by eexists preds, metrics, _, _, _, _.
  - intros ->. unfold update_output. by rewrite bool_decide_eq_false_2.
Qed.

Lemma update_output_spec_witness :
  training (0 : rng) sample_clean = Some sample_tr ∧
  evaluation sample_tr sample_clean = Some sample_ev ∧
  "rf" ∈ ["lr"; "rf"; "svm"] ∧
  ((1 > 0)%Z →
     ∃ preds metrics fig s1 s2 s3,
       predictions sample_ev !! "rf" = Some preds ∧
       results sample_ev !! "rf" = Some metrics ∧
       update_output sample_ev 1 "rf" = Some (fig, s1, s2, s3) ∧
       fig_data fig
       = [mkScatter (seq 0 (length (y_test sample_ev))) preds
            "lines+markers" "Predicted";
          mkScatter (seq 0 (length (y_test sample_ev))) (y_test sample_ev)
            "lines" "Actual"] ∧
       sc_name <$> fig_data fig = ["Predicted"; "Actual"] ∧
       s1 = "RMSE: " +:+ float_str (RMSE metrics) ∧
       s2 = "MSE: " +:+ float_str (MSE metrics) ∧
       s3 = "MAPE: " +:+ float_str (MAPE metrics) ∧
       String.prefix "RMSE:" s1 = true) ∧
  (1%Z = 0%Z →
     update_output sample_ev 1 "rf"
     = Some (empty_figure, EmptyString, EmptyString, EmptyString)).
Proof.
  assert (Ht : training (0 : rng) sample_clean = Some sample_tr).
  { reflexivity. }
  assert (He : evaluation sample_tr sample_clean = Some sample_ev).
  { reflexivity. }
  assert (Hk : "rf" ∈ ["lr"; "rf"; "svm"]).
  { apply list_elem_of_further, list_elem_of_here. }
  split; [exact Ht|]. split; [exact He|]. split; [exact Hk|].
  exact (update_output_spec 0 sample_clean sample_clean sample_tr sample_ev
           1 "rf" Ht He Hk).
Defined.

(** A property that no callback reads can change without any other
    property changing. *)
Lemma set_prop_unread (cbs : list Callback) (p : prop_id) (v : prop_value)
    (pg : page) :
  Forall (λ cb, p ∉ cb_inputs cb) cbs →
  set_prop cbs p v pg = <[p := v]> pg.
Proof.
  intros Hall. unfold set_prop. generalize (<[p := v]> pg).
  induction Hall as [|cb cbs Hcb _ IH]; intros q; simpl; [done|].
  unfold fire at 2. rewrite bool_decide_eq_false_2 by done. apply IH.
Qed.

Lemma end_button_unread `{Externals} (ev : Evaluation) :
  Forall (λ cb, ("end-button", "n_clicks") ∉ cb_inputs cb) (callbacks ev).
Proof.
  unfold callbacks. repeat constructor. simpl.
  apply (bool_decide_unpack _). vm_compute. exact I.
Qed.

(** C9.  Whatever the page shows, any number of clicks on the End button
    leaves the chart and the three metric texts as they are; the clicks
    change no property other than the click count of the End button. *)
Theorem end_button_inert `{Externals} (ev : Evaluation) (pg : page) (n : nat) :
  let pg' := Nat.iter n (click (callbacks ev) "end-button") pg in
  outputs pg' = outputs pg ∧
  ∀ p, p ≠ ("end-button", "n_clicks") → pg' !! p = pg !! p.
Proof.
  assert (Hframe : ∀ p, p ≠ ("end-button", "n_clicks") →
            Nat.iter n (click (callbacks ev) "end-button") pg !! p = pg !! p).
  { induction n as [|n IH]; intros p Hp; simpl; [done|].
    unfold click at 1. rewrite set_prop_unread by apply end_button_unread.
    rewrite lookup_insert_ne by done. by apply IH. }
  split; [|exact Hframe].
  unfold outputs. simpl. by rewrite !Hframe.
Qed.

(** The Start button, by contrast, is read: on the sample run its first
    click fills the four outputs, and a click on End then changes none. *)
Example start_button_renders :
  let pg := click (callbacks sample_ev) "start-button" initial_page in
  outputs initial_page = [None; None; None; None] ∧
  (λ o, match o with Some (PStr s) => Some s | _ => None end) <$> outputs pg
  = [None; Some "RMSE: <float>"; Some "MSE: <float>"; Some "MAPE: inf"] ∧
  outputs (click (callbacks sample_ev) "end-button" pg) = outputs pg.
Proof.
  split; [reflexivity|]. split; [vm_compute; reflexivity|].
  vm_compute. reflexivity.
Qed.

(** * Further properties of the cells *)

(** ** Ingestion: failures and what is never touched *)

Lemma select_missing (df : DataFrame) (names : list string) (k : string) :
  k ∈ names → k ∉ column_names df → select df names = None.
Proof.
  intros Hk Hno. unfold select.
  assert (mapM (λ n, c ← get_column df n; Some (n, c)) names = None) as ->;
    [|done].
  induction names as [|n names IH]; [by apply elem_of_nil in Hk|].
  cbn [mapM]. apply elem_of_cons in Hk as [<-|Hk].
  - unfold get_column. by rewrite (assoc_None _ _ Hno).
  - rewrite (IH Hk). by destruct (get_column df n).
Qed.

(** X1.  When a required column is absent from the CSV table, the
    ingestion raises [KeyError] and the collection is left as it was. *)
Theorem import_csv_data_missing_column (csv : DataFrame)
    (required_columns : list string) (c : Collection) (k : string) :
  k ∈ required_columns → k ∉ column_names csv →
  import_csv_data csv required_columns c = (c, Raised KeyError).
Proof.
  intros Hk Hno. unfold import_csv_data.
  by rewrite (select_missing _ _ _ Hk Hno).
Qed.

Lemma import_csv_data_missing_column_witness :
  "Wind_speed" ∈ ["dtm"; "Wind_speed"] ∧
  ("Wind_speed" ∉ column_names sample_csv) ∧
  import_csv_data sample_csv ["dtm"; "Wind_speed"] sample_collection
  = (sample_collection, Raised KeyError).
Proof.
  assert (Hk : "Wind_speed" ∈ ["dtm"; "Wind_speed"]).
  { apply list_elem_of_further, list_elem_of_here. }
  assert (Hno : "Wind_speed" ∉ column_names sample_csv).
  { apply (bool_decide_unpack _). vm_compute. exact I. }
  split; [exact Hk|]. split; [exact Hno|].
  exact (import_csv_data_missing_column sample_csv _ sample_collection
           "Wind_speed" Hk Hno).
Defined.

Lemma insert_ordered_prefix (records : list document) (c : Collection) :
  docs c `prefix_of` docs (insert_ordered records c).1.
Proof.
  revert c. induction records as [|r rest IH]; intros c; simpl; [done|].
  destruct (assoc "_id" r) as [v|].
  - destruct (existsb (has_id v) (docs c)); [done|].
    etrans; [|apply IH]. simpl. by apply prefix_app_r.
  - etrans; [|apply IH]. simpl. by apply prefix_app_r.
Qed.

(** X2.  Whatever the CSV table and the column list, and whether or not
    the call raises, the documents already in the collection stay where
    they are: the old contents are a prefix of the new. *)
Theorem import_csv_data_keeps_documents (csv : DataFrame)
    (required_columns : list string) (c : Collection) :
  docs c `prefix_of` docs (import_csv_data csv required_columns c).1.
Proof.
  unfold import_csv_data. destruct (select csv required_columns); [|done].
  unfold insert_many. destruct (to_dict_records _) eqn:Hrec; [done|].
  apply insert_ordered_prefix.
Qed.

(** X3.  A CSV table that has the required columns but no row makes the
    ingestion raise [TypeError] at the bulk insert and store nothing; a
    collection that is still empty then makes the preprocessing cell raise
    at the drop of [_id], the retrieved table having no column. *)
Theorem import_csv_data_no_rows (csv : DataFrame)
    (required_columns : list string) (c : Collection) :
  required_columns ⊆ column_names csv → df_index csv = 0 →
  import_csv_data csv required_columns c = (c, Raised TypeError) ∧
  (docs c = [] → clean (DataFrame_of_records (find c)) = None).
Proof.
  intros Hsub Hz. split.
  - unfold import_csv_data.
    rewrite (select_present _ _ Hsub). unfold to_dict_records. simpl.
    rewrite Hz. by destruct (_ <$> required_columns).
  - intros Hempty. unfold find. by rewrite Hempty.
Qed.

Lemma import_csv_data_no_rows_witness :
  let csv := mkDataFrame 0 ((λ k, (k, [])) <$> columns) in
  columns ⊆ column_names csv ∧ df_index csv = 0 ∧
  import_csv_data csv columns empty_collection
  = (empty_collection, Raised TypeError) ∧
  (docs empty_collection = [] →
   clean (DataFrame_of_records (find empty_collection)) = None).
Proof.
  intros csv.
  assert (Hsub : columns ⊆ column_names csv).
  { apply (bool_decide_unpack _). vm_compute. exact I. }
  assert (Hz : df_index csv = 0) by reflexivity.
  split; [exact Hsub|]. split; [exact Hz|].
  exact (import_csv_data_no_rows csv columns empty_collection Hsub Hz).
Defined.

(** ** The identifiers in the store *)

Lemma store_ok_insert_fresh (c : Collection) (r : document) :
  store_ok c →
  store_ok (mkCollection (docs c ++ [("_id", Some (VOid (next_oid c))) :: r])
                         (N.succ (next_oid c))).
Proof.
  intros [Hnd Hall]. split; simpl.
  - rewrite fmap_app. apply NoDup_app. split; [done|]. split.
    + intros v Hv Hnew. apply list_elem_of_fmap in Hv as (d & -> & Hd).
      rewrite Forall_forall in Hall. destruct (Hall d Hd) as (n & Hn & Hlt).
      apply list_elem_of_singleton in Hnew. simpl in Hnew.
      rewrite Hn in Hnew. injection Hnew as ->. lia.
    + apply NoDup_singleton.
  - apply Forall_app. split.
    + eapply Forall_impl; [exact Hall|]. intros d (n & Hn & Hlt).
      exists n. split; [done|]. lia.
    + apply Forall_singleton. exists (next_oid c). split; [done|]. lia.
Qed.

Lemma insert_ordered_store_ok (records : list document) (c : Collection) :
  Forall (λ r, assoc "_id" r = None) records →
  store_ok c → store_ok (insert_ordered records c).1.
Proof.
  intros Hfresh. revert c.
  induction Hfresh as [|r rest Hr _ IH]; intros c Hok; simpl; [done|].
  rewrite Hr. by apply IH, store_ok_insert_fresh.
Qed.

(** X4.  Ingestion of a CSV table with the eight listed columns keeps the
    identifiers of the collection pairwise distinct: the documents a run
    appends get identifiers no stored document has, so a repeated run
    duplicates contents but never an identifier. *)
Theorem import_csv_data_store_ok (csv : DataFrame) (c : Collection) :
  columns ⊆ column_names csv → store_ok c →
  store_ok (import_csv_data csv columns c).1.
Proof.
  intros Hsub Hok. unfold import_csv_data.
  rewrite (select_present _ _ Hsub),
    (records_of_select _ _ columns_NoDup columns_not_nil).
  unfold insert_many.
  destruct (row_of csv columns <$> seq 0 (df_index csv)) eqn:Hrows; [done|].
  rewrite <- Hrows. apply insert_ordered_store_ok; [|done].
  eapply Forall_impl; [apply rows_fresh|]. intros r Hr. by apply assoc_None.
Qed.

Lemma store_ok_empty : store_ok empty_collection.
Proof. split; [apply NoDup_nil_2|apply Forall_nil_2]. Qed.

Lemma import_csv_data_store_ok_witness :
  columns ⊆ column_names sample_csv ∧ store_ok sample_collection ∧
  store_ok (import_csv_data sample_csv columns sample_collection).1.
Proof.
  assert (Hsub : columns ⊆ column_names sample_csv).
  { apply (bool_decide_unpack _). vm_compute. exact I. }
  assert (Hok : store_ok sample_collection).
  { exact (import_csv_data_store_ok sample_csv empty_collection Hsub
             store_ok_empty). }
  split; [exact Hsub|]. split; [exact Hok|].
  exact (import_csv_data_store_ok sample_csv sample_collection Hsub Hok).
Defined.

(** ** From the CSV table to the retrieved table *)

Lemma keys_union_subset (seen : list string) (ds : list document) :
  Forall (λ d : document, d.*1 ⊆ seen) ds → keys_union seen ds = seen.
Proof.
  induction 1 as [|d ds Hd _ IH]; simpl; [done|].
  assert (list_difference (remove_dups d.*1) seen = []) as ->.
  { apply elem_of_nil_inv. intros k Hk.
    apply list_elem_of_difference in Hk as [Hk Hno].
    apply Hno, Hd. by apply elem_of_remove_dups. }
  by rewrite app_nil_r.
Qed.

Lemma assoc_Some_elem {A} (k : string) (l : list (string * A)) (v : A) :
  assoc k l = Some v → (k, v) ∈ l.
Proof.
  induction l as [|[k' v'] l IH]; simpl; [done|].
  destruct (decide (k = k')) as [->|_].
  - intros [= ->]. apply list_elem_of_here.
  - intros Hk. by apply list_elem_of_further, IH.
Qed.

(** Reading a column back cell by cell. *)
Lemma lookup_all_cells {A} (l : list (option A)) (n : nat) :
  length l = n → (λ i, default None (l !! i)) <$> seq 0 n = l.
Proof.
  intros Hn. apply list_eq. intros i. rewrite list_lookup_fmap.
  destruct (decide (i < n)) as [Hi|Hi].
  - rewrite lookup_seq_lt by done. simpl.
    destruct (lookup_lt_is_Some_2 l i) as [x Hx]; [lia|]. by rewrite Hx.
  - rewrite lookup_seq_ge by lia. simpl. symmetry. apply lookup_ge_None. lia.
Qed.

Lemma field_stored (csv : DataFrame) (names : list string) (i : nat)
    (d : document) (k : string) :
  k ∈ names → k ≠ "_id" → stored_as (row_of csv names i) d →
  field k d = default None (default [] (get_column csv k) !! i).
Proof.
  intros Hk Hne [oid ->]. unfold field. cbn [assoc].
  destruct (decide (k = "_id")); [done|].
  unfold row_of. by rewrite (assoc_fmap_key _ _ _ Hk).
Qed.

Lemma fields_stored (csv : DataFrame) (names : list string) (k : string)
    (idx : list nat) (new : list document) :
  k ∈ names → k ≠ "_id" →
  Forall2 stored_as (row_of csv names <$> idx) new →
  field k <$> new
  = (λ i, default None (default [] (get_column csv k) !! i)) <$> idx.
Proof.
  intros Hk Hne. revert new. induction idx as [|i idx IH]; intros new Hall.
  - apply Forall2_nil_inv_l in Hall as ->. done.
  - rewrite fmap_cons in Hall.
    apply Forall2_cons_inv_l in Hall as (d & new' & Hd & Hall & ->).
    rewrite !fmap_cons. f_equal; [by eapply field_stored|by apply IH].
Qed.

Lemma stored_keys (csv : DataFrame) (names : list string) (idx : list nat)
    (new : list document) :
  Forall2 stored_as (row_of csv names <$> idx) new →
  Forall (λ d : document, d.*1 = "_id" :: names) new.
Proof.
  revert new. induction idx as [|i idx IH]; intros new Hall.
  - apply Forall2_nil_inv_l in Hall as ->. constructor.
  - rewrite fmap_cons in Hall.
    apply Forall2_cons_inv_l in Hall as (d & new' & [oid ->] & Hall & ->).
    constructor; [|by apply IH]. by rewrite fmap_cons, row_of_keys.
Qed.

(** X5.  Round trip through the store.  For a well-formed CSV table with
    the eight listed columns and at least one row, ingesting it into an
    empty collection, reading the collection back into a table and
    dropping [_id] gives exactly the CSV table restricted to the listed
    columns: same rows, same labels in the listed order, same cells. *)
Theorem store_round_trip (csv : DataFrame) :
  well_formed csv → columns ⊆ column_names csv → 0 < df_index csv →
  drop_column "_id"
    (DataFrame_of_records
       (find (import_csv_data csv columns empty_collection).1))
  = select csv columns.
Proof.
  intros [_ Hlen] Hsub Hpos.
  destruct (import_csv_data_run csv empty_collection Hsub)
    as (new & Hdocs & Hall & _).
  simpl in Hdocs. unfold find. rewrite Hdocs, (select_present _ _ Hsub).
  pose proof (Forall2_length _ _ _ Hall) as Hn.
  rewrite length_fmap, length_seq in Hn.
  pose proof (stored_keys _ _ _ _ Hall) as Hkeys.
  destruct new as [|d0 new]; [simpl in Hn; lia|].
  apply Forall_cons in Hkeys as [Hk0 Hkeys].
  assert (keys_union [] (d0 :: new) = "_id" :: columns) as Hunion.
  { cbn [keys_union]. rewrite Hk0.
    change ([] ++ list_difference (remove_dups ("_id" :: columns)) [])
      with ("_id" :: columns).
    apply keys_union_subset. eapply Forall_impl; [exact Hkeys|].
    intros d ->. done. }
  unfold DataFrame_of_records, drop_column, column_names.
  rewrite Hunion. cbn [df_columns df_index].
  rewrite decide_True.
  2:{ rewrite fmap_cons. apply list_elem_of_here. }
  f_equal. f_equal; [by rewrite <- Hn|].
  rewrite fmap_cons, filter_cons_False by (by intros H; apply H).
  generalize dependent (d0 :: new). intros ds Hdocs Hall Hn Hunion.
  assert (∀ names : list string, names ⊆ columns →
    filter (λ c : string * Series, c.1 ≠ "_id")
      ((λ k, (k, field k <$> ds)) <$> names)
    = (λ n, (n, default [] (get_column csv n))) <$> names) as Hcols.
  { induction names as [|k names IH]; intros Hnames; [done|].
    assert (k ∈ columns) as Hk by (apply Hnames, list_elem_of_here).
    assert (k ≠ "_id") as Hne.
    { intros ->. by apply columns_no_id in Hk. }
    rewrite !fmap_cons, filter_cons_True by done.
    f_equal.
    - f_equal. rewrite (fields_stored _ _ _ _ _ Hk Hne Hall).
      apply lookup_all_cells.
      destruct (assoc_is_Some k (df_columns csv) (Hsub _ Hk)) as [col Hcol].
      unfold get_column. rewrite Hcol. simpl.
      rewrite Forall_forall in Hlen.
      exact (Hlen _ (assoc_Some_elem _ _ _ Hcol)).
    - apply IH. intros x Hx. apply Hnames. by apply list_elem_of_further. }
  by apply Hcols.
Qed.

Lemma sample_csv_well_formed : well_formed sample_csv.
Proof.
  split.
  - apply (bool_decide_unpack _). vm_compute. exact I.
  - unfold sample_csv. simpl. repeat constructor.
Qed.

Lemma store_round_trip_witness :
  well_formed sample_csv ∧ columns ⊆ column_names sample_csv ∧
  0 < df_index sample_csv ∧
  drop_column "_id"
    (DataFrame_of_records
       (find (import_csv_data sample_csv columns empty_collection).1))
  = select sample_csv columns.
Proof.
  assert (Hsub : columns ⊆ column_names sample_csv).
  { apply (bool_decide_unpack _). vm_compute. exact I. }
  assert (Hpos : 0 < df_index sample_csv) by (simpl; lia).
  split; [exact sample_csv_well_formed|]. split; [exact Hsub|].
  split; [exact Hpos|].
  exact (store_round_trip sample_csv sample_csv_well_formed Hsub Hpos).
Defined.

(** ** Forward fill: what a filled table looks like *)

Lemma ffill_from_Some {A} (v : A) (col : list (option A)) :
  Forall is_Some (ffill_from (Some v) col).
Proof.
  revert v. induction col as [|c rest IH]; intros v; simpl; [constructor|].
  destruct c as [w|]; constructor; eauto.
Qed.

Lemma ffill_from_valid_below {A} (last : option A) (col : list (option A))
    (i j : nat) :
  is_Some (ffill_from last col !! i ≫= id) → i ≤ j → j < length col →
  is_Some (ffill_from last col !! j ≫= id).
Proof.
  revert last i j. induction col as [|c rest IH]; intros last i j Hi Hij Hj.
  - simpl in Hj. lia.
  - destruct j as [|j].
    + assert (i = 0) as -> by lia. done.
    + destruct i as [|i].
      * simpl in Hi. simpl.
        destruct (match c with Some v => Some v | None => last end) as [v|];
          [|by destruct Hi].
        pose proof (ffill_from_Some v rest) as Hall.
        rewrite Forall_lookup in Hall.
        destruct (lookup_lt_is_Some_2 (ffill_from (Some v) rest) j) as [x Hx].
        { rewrite ffill_from_length. simpl in Hj. lia. }
        rewrite Hx. simpl. exact (Hall j x Hx).
      * simpl. apply (IH _ i j); [done|lia|simpl in Hj; lia].
Qed.

(** X6.  In every column of a forward-filled table the missing cells are
    at the top: once a row holds a value, every row below it holds one. *)
Theorem fillna_ffill_missing_on_top (df : DataFrame) (name : string)
    (col' : Series) (i j : nat) (v : value) :
  (name, col') ∈ df_columns (fillna_ffill df) →
  col' !! i = Some (Some v) → i ≤ j → j < length col' →
  ∃ w, col' !! j = Some (Some w).
Proof.
  intros Hin Hi Hij Hj. unfold fillna_ffill in Hin. simpl in Hin.
  apply list_elem_of_fmap in Hin as ([n col] & [= -> ->] & _).
  unfold ffill in *. simpl in *. rewrite ffill_from_length in Hj.
  destruct (ffill_from_valid_below None col i j) as [w Hw]; [|done|done|].
  - rewrite Hi. by eexists.
  - destruct (ffill_from None col !! j) as [[w'|]|]; [|done|done].
    by exists w'.
Qed.

Lemma fillna_ffill_missing_on_top_witness :
  let col' := [num 20; num 20; num 22; num 23; num 23] in
  ("MIP", col') ∈ df_columns (fillna_ffill sample_retrieved) ∧
  col' !! 1 = Some (Some (VFloat (of_Z 20))) ∧ 1 ≤ 4 ∧ 4 < length col' ∧
  ∃ w, col' !! 4 = Some (Some w).
Proof.
  intros col'.
  assert (Hin : ("MIP", col') ∈ df_columns (fillna_ffill sample_retrieved)).
  { apply list_elem_of_lookup. exists 2. reflexivity. }
  assert (Hi : col' !! 1 = Some (Some (VFloat (of_Z 20)))) by reflexivity.
  assert (Hij : 1 ≤ 4) by lia.
  assert (Hj : 4 < length col') by (simpl; lia).
  split; [exact Hin|]. split; [exact Hi|]. split; [exact Hij|].
  split; [exact Hj|].
  exact (fillna_ffill_missing_on_top sample_retrieved "MIP" col' 1 4 _
           Hin Hi Hij Hj).
Defined.

Lemma ffill_from_idempotent {A} (last : option A) (col : list (option A)) :
  ffill_from last (ffill_from last col) = ffill_from last col.
Proof.
  revert last. induction col as [|c rest IH]; intros last; simpl; [done|].
  destruct c as [v|]; simpl.
  - f_equal. apply IH.
  - destruct last as [w|]; f_equal; apply IH.
Qed.

(** X7.  Forward-filling a table a second time changes nothing. *)
Theorem fillna_ffill_idempotent (df : DataFrame) :
  fillna_ffill (fillna_ffill df) = fillna_ffill df.
Proof.
  unfold fillna_ffill. simpl. f_equal.
  rewrite <- list_fmap_compose. apply list_fmap_ext. intros _ [n col] _.
  unfold fill_column, ffill. simpl. f_equal. apply ffill_from_idempotent.
Qed.

(** ** Shape of the retrieved and of the cleaned table *)

Lemma keys_union_NoDup (seen : list string) (ds : list document) :
  NoDup seen → NoDup (keys_union seen ds).
Proof.
  revert seen. induction ds as [|d ds IH]; intros seen Hnd; simpl; [done|].
  apply IH, NoDup_app. split; [done|]. split.
  - intros k Hk Hk'. by apply list_elem_of_difference in Hk' as [_ Hno].
  - apply NoDup_list_difference, NoDup_remove_dups.
Qed.

Lemma DataFrame_of_records_well_formed (ds : list document) :
  well_formed (DataFrame_of_records ds).
Proof.
  split.
  - rewrite column_names_of_records. apply keys_union_NoDup, NoDup_nil_2.
  - unfold DataFrame_of_records. simpl. apply Forall_fmap, Forall_forall.
    intros k _. simpl. apply length_fmap.
Qed.

(** X8.  The table that reaches training is well formed: whatever the
    documents read from the collection, if the preprocessing cell returns
    a table, its column labels are pairwise distinct and every column has
    exactly one cell per document. *)
Theorem cleaned_table_well_formed (ds : list document) (df : DataFrame) :
  clean (DataFrame_of_records ds) = Some df →
  well_formed df ∧ df_index df = length ds.
Proof.
  intros Hc. destruct (DataFrame_of_records_well_formed ds) as [Hnd Hlen].
  unfold clean, drop_column in Hc.
  destruct (decide _) as [_|]; [|done]. injection Hc as <-.
  split; [split|done].
  - rewrite column_names_fillna. unfold column_names. simpl.
    rewrite column_names_filter. by apply NoDup_filter.
  - simpl. apply Forall_fmap, Forall_forall. intros [n col] Hin.
    apply list_elem_of_filter in Hin as [_ Hin]. simpl.
    rewrite Forall_forall in Hlen. unfold ffill.
    rewrite ffill_from_length. exact (Hlen _ Hin).
Qed.

Lemma cleaned_table_well_formed_witness :
  clean (DataFrame_of_records (find sample_collection)) = Some sample_clean ∧
  well_formed sample_clean ∧
  df_index sample_clean = length (find sample_collection).
Proof.
  assert (Hc : clean (DataFrame_of_records (find sample_collection))
               = Some sample_clean) by reflexivity.
  split; [exact Hc|].
  exact (cleaned_table_well_formed (find sample_collection) sample_clean Hc).
Defined.

(** ** The split *)

Lemma take_rows_length {A} (idx : list nat) (col : list A) (rows : list A) :
  take_rows idx col = Some rows → length rows = length idx.
Proof.
  unfold take_rows. intros Hm. apply mapM_Some, Forall2_length in Hm. done.
Qed.

(** X9.  When the shuffle of [n] rows has [n] entries and the split
    returns, its validation indices followed by its training indices are
    the whole shuffle, so every shuffled row lands in exactly one part;
    tables and targets of a part have the same number of rows, the
    training part is not empty and the two parts together have [n] rows. *)
Theorem train_test_split_partition `{Externals} (X X_tr X_va : DataFrame)
    (y y_tr y_va : Series) :
  length (permutation (df_index X)) = df_index X →
  train_test_split X y = Some (X_tr, X_va, y_tr, y_va) →
  ∃ ind_va ind_tr,
    ind_va ++ ind_tr = permutation (df_index X) ∧
    iloc X ind_tr = Some X_tr ∧ iloc X ind_va = Some X_va ∧
    take_rows ind_tr y = Some y_tr ∧ take_rows ind_va y = Some y_va ∧
    df_index X_tr = length ind_tr ∧ length y_tr = length ind_tr ∧
    df_index X_va = length ind_va ∧ length y_va = length ind_va ∧
    0 < df_index X_tr ∧
    df_index X_tr + df_index X_va = df_index X.
Proof.
  intros Hperm Hs. unfold train_test_split in Hs.
  destruct (decide (length y = df_index X)); [|done].
  destruct (ceil (fmul test_size (of_nat (df_index X)))) as [n_test|]; [|done].
  cbn [fmap option_fmap option_map mbind option_bind] in Hs.
  destruct (decide (df_index X - Z.to_nat n_test = 0)) as [|Hne]; [done|].
  do 4 step_in Hs. injection Hs as <- <- <- <-.
  set (p := permutation (df_index X)) in *.
  set (k := Z.to_nat n_test) in *.
  assert (take (df_index X - k) (drop k p) = drop k p) as Htr.
  { apply take_ge. rewrite length_drop. lia. }
  rewrite Htr in *.
  exists (take k p), (drop k p).
  repeat match goal with
         | Hx : iloc _ _ = Some _ |- _ => pose proof (iloc_inv _ _ _ Hx) as [_ ?];
                                         revert Hx
         | Hx : take_rows _ _ = Some _ |- _ =>
             pose proof (take_rows_length _ _ _ Hx); revert Hx
         end.
  intros Hy_va Hy_tr HX_va HX_tr.
  assert (length (drop k p) = df_index X - k) as Hld by (rewrite length_drop; lia).
  assert (length (take k p) = k) as Hlt by (rewrite length_take; lia).
  split; [apply firstn_skipn|]. split; [done|]. split; [done|].
  split; [done|]. split; [done|]. split; [done|]. split; [done|].
  split; [done|]. split; [done|]. split; lia.
Qed.

Lemma train_test_split_partition_witness :
  let X := default (mkDataFrame 0 []) (select sample_clean features) in
  let y := default [] (get_column sample_clean target) in
  length (permutation (df_index X)) = df_index X ∧
  train_test_split X y
  = Some (X_train_split sample_tr, X_valid_split sample_tr,
          y_train_split sample_tr, y_valid_split sample_tr) ∧
  ∃ ind_va ind_tr,
    ind_va ++ ind_tr = permutation (df_index X) ∧
    iloc X ind_tr = Some (X_train_split sample_tr) ∧
    iloc X ind_va = Some (X_valid_split sample_tr) ∧
    take_rows ind_tr y = Some (y_train_split sample_tr) ∧
    take_rows ind_va y = Some (y_valid_split sample_tr) ∧
    df_index (X_train_split sample_tr) = length ind_tr ∧
    length (y_train_split sample_tr) = length ind_tr ∧
    df_index (X_valid_split sample_tr) = length ind_va ∧
    length (y_valid_split sample_tr) = length ind_va ∧
    0 < df_index (X_train_split sample_tr) ∧
    df_index (X_train_split sample_tr) + df_index (X_valid_split sample_tr)
    = df_index X.
Proof.
  intros X y.
  assert (Hp : length (permutation (df_index X)) = df_index X) by reflexivity.
  assert (Hs : train_test_split X y
               = Some (X_train_split sample_tr, X_valid_split sample_tr,
                       y_train_split sample_tr, y_valid_split sample_tr))
    by reflexivity.
  split; [exact Hp|]. split; [exact Hs|].
  exact (train_test_split_partition X _ _ y _ _ Hp Hs).
Defined.

Lemma train_test_split_empty `{Externals} (X : DataFrame) (y : Series) :
  df_index X = 0 → train_test_split X y = None.
Proof.
  intros Hz. unfold train_test_split. rewrite Hz.
  destruct (decide (length y = 0)); [|done]. reflexivity.
Qed.

(** X10.  The training cell raises on a table without rows, whatever its
    columns: the split has no row to put in the training part. *)
Theorem training_empty_table `{Externals} (g : rng) (data_train : DataFrame) :
  df_index data_train = 0 → training g data_train = None.
Proof.
  intros Hz. unfold training.
  destruct (select data_train features) as [X|] eqn:Hsel; [|done].
  apply select_inv in Hsel as [_ Hidx]. cbn [mbind option_bind].
  destruct (get_column data_train target) as [y|]; [|done].
  cbn [mbind option_bind].
  rewrite train_test_split_empty; [done|]. by rewrite Hidx.
Qed.

Lemma training_empty_table_witness :
  let data := mkDataFrame 0 ((λ k, (k, [])) <$> columns) in
  df_index data = 0 ∧ training (0 : rng) data = None.
Proof.
  intros data. assert (Hz : df_index data = 0) by reflexivity.
  split; [exact Hz|]. exact (training_empty_table (0 : rng) data Hz).
Defined.

(** ** Shape of the scaled arrays *)

Lemma to_array_shape (df : DataFrame) (a : array) :
  to_array df = Some a →
  Forall2 (λ (c : string * Series) col, length col = length c.2)
          (df_columns df) a.
Proof.
  unfold to_array. intros Ha. apply mapM_Some in Ha.
  eapply Forall2_impl; [exact Ha|]. intros c col Hc. simpl in Hc.
  unfold series_to_floats in Hc. apply mapM_Some, Forall2_length in Hc. done.
Qed.

Lemma standardize_shape (p : ScalerParams) (a : array) :
  length (mean_ p) = length a → length (scale_ p) = length a →
  Forall2 (λ col out : list float, length out = length col) a (standardize p a).
Proof.
  unfold standardize. intros Hm Hs.
  assert (length (zip (mean_ p) (scale_ p)) = length a) as Hz.
  { rewrite length_zip_with. lia. }
  revert Hz. generalize (zip (mean_ p) (scale_ p)). clear.
  induction a as [|col a IH]; intros [|ms l] Hl; simpl in *; try done.
  constructor; [apply length_fmap|]. apply IH. lia.
Qed.

(** X11.  Standardization keeps the shape of the test table: when both
    cells return, the scaled test array has one column per feature, six
    in all, and each column has as many entries as the column of the test
    feature table it comes from. *)
Theorem scaled_test_shape `{Externals} (g : rng)
    (data_train data_test : DataFrame) (tr : Training) (ev : Evaluation) :
  training g data_train = Some tr →
  evaluation tr data_test = Some ev →
  length (X_test_scaled ev) = 6 ∧
  Forall2 (λ (c : string * Series) out, length out = length c.2)
          (df_columns (X_test ev)) (X_test_scaled ev).
Proof.
  intros Ht He.
  destruct (scaler_history _ _ _ _ _ Ht He) as (_ & _ & Hn_tr & _ & Hn_te).
  apply training_inv in Ht as (_ & _ & _ & (a & Ha & Hp) & _).
  apply evaluation_inv in He as (_ & Htr & _).
  apply scaler_transform_inv in Htr as (p & a' & Hp' & Ha' & -> & _ & _).
  rewrite Hp in Hp'. injection Hp' as <-.
  pose proof (to_array_shape _ _ Ha) as Hsh.
  pose proof (to_array_shape _ _ Ha') as Hsh'.
  pose proof (Forall2_length _ _ _ Hsh) as Hl.
  pose proof (Forall2_length _ _ _ Hsh') as Hl'.
  assert (length (df_columns (X_train_split tr)) = 6) as H6.
  { change 6 with (length features). rewrite <- Hn_tr.
    unfold column_names. by rewrite length_fmap. }
  assert (length (df_columns (X_test ev)) = 6) as H6'.
  { change 6 with (length features). rewrite <- Hn_te.
    unfold column_names. by rewrite length_fmap. }
  assert (Forall2 (λ col out : list float, length out = length col) a'
            (standardize
               (mkScalerParams (column_mean <$> a) (column_scale <$> a)) a'))
    as Hst.
  { apply standardize_shape; simpl; rewrite length_fmap; lia. }
  split.
  - rewrite <- (Forall2_length _ _ _ Hst). lia.
  - eapply Forall2_trans; [|exact Hsh'|exact Hst].
    intros c col out Hc Ho. simpl in *. congruence.
Qed.

Lemma scaled_test_shape_witness :
  training (0 : rng) sample_clean = Some sample_tr ∧
  evaluation sample_tr sample_clean = Some sample_ev ∧
  length (X_test_scaled sample_ev) = 6 ∧
  Forall2 (λ (c : string * Series) out, length out = length c.2)
          (df_columns (X_test sample_ev)) (X_test_scaled sample_ev).
Proof.
  assert (Ht : training (0 : rng) sample_clean = Some sample_tr).
  { reflexivity. }
  assert (He : evaluation sample_tr sample_clean = Some sample_ev).
  { reflexivity. }
  split; [exact Ht|]. split; [exact He|].
  exact (scaled_test_shape _ _ _ _ _ Ht He).
Defined.

(** ** The metrics loop never fails on a square root *)

(** X12.  The body of the metrics loop returns exactly when the
    predictions and the targets have the same, non-zero number of entries
    and all of them are finite; in particular [math.sqrt] never raises
    there, the mean squared error never being negative. *)
Theorem metrics_of_returns (y preds : list float) :
  is_Some (metrics_of y preds)
  ↔ length y = length preds ∧ y ≠ [] ∧
    forallb is_finite y = true ∧ forallb is_finite preds = true.
Proof.
  unfold metrics_of. split.
  - intros [m Hm].
    destruct (mean_squared_error y preds) as [mse|] eqn:Hmse; [|done].
    unfold mean_squared_error in Hmse.
    destruct (decide _) as [Hl|]; [|done]. destruct y as [|y0 y]; [done|].
    destruct (forallb is_finite (y0 :: y)); [|done].
    destruct (forallb is_finite preds); done.
  - intros (Hl & Hy & Hfy & Hfp).
    assert (∃ mse, mean_squared_error y preds = Some mse) as [mse Hmse].
    { unfold mean_squared_error. rewrite decide_True by done.
      destruct y as [|y0 y]; [done|]. rewrite Hfy, Hfp. by eexists. }
    rewrite Hmse. cbn [mbind option_bind].
    rewrite (math_sqrt_sign_clear _ (mean_squared_error_sign_clear _ _ _ Hmse)).
    cbn [mbind option_bind]. by eexists.
Qed.

(** ** What the dashboard can look up *)

Lemma predictions_key_set `{Externals} (g : rng)
    (data_train data_test : DataFrame) (tr : Training) (ev : Evaluation)
    (k : string) :
  training g data_train = Some tr →
  evaluation tr data_test = Some ev →
  is_Some (predictions ev !! k) ↔ k ∈ ["lr"; "rf"; "svm"].
Proof.
  intros Ht He.
  apply training_inv in Ht as (_ & _ & _ & _ & _ & Hkeys).
  apply evaluation_inv in He as (_ & _ & ps & rs & ys & Hpred & _ & _ & _ & Hps & _).
  apply predict_all_inv in Hpred.
  apply (Forall2_keys (λ e p, predict e (X_test_scaled ev) = Some p)) in Hpred.
  rewrite Hps, dict_of_is_Some, Hpred, Hkeys. done.
Qed.

(** X13.  When both cells return, [predictions] and [results] have
    exactly the three model keys: a key is present in either dictionary
    if and only if it is "lr", "rf" or "svm". *)
Theorem dictionaries_have_model_keys `{Externals} (g : rng)
    (data_train data_test : DataFrame) (tr : Training) (ev : Evaluation)
    (k : string) :
  training g data_train = Some tr →
  evaluation tr data_test = Some ev →
  (is_Some (predictions ev !! k) ↔ k ∈ ["lr"; "rf"; "svm"]) ∧
  (is_Some (results ev !! k) ↔ k ∈ ["lr"; "rf"; "svm"]).
Proof.
  intros Ht He.
  apply training_inv in Ht as (_ & _ & _ & _ & _ & Hkeys).
  apply evaluation_inv in He
    as (_ & _ & ps & rs & ys & Hpred & _ & _ & Hev & Hps & Hrs).
  apply predict_all_inv in Hpred.
  apply (Forall2_keys (λ e p, predict e (X_test_scaled ev) = Some p)) in Hpred.
  apply evaluate_all_inv in Hev.
  apply (Forall2_keys (λ p r, metrics_of (y_test ev) p = Some r)) in Hev.
  rewrite Hps, Hrs, !dict_of_is_Some, Hev, Hpred, Hkeys. done.
Qed.

Lemma dictionaries_have_model_keys_witness :
  training (0 : rng) sample_clean = Some sample_tr ∧
  evaluation sample_tr sample_clean = Some sample_ev ∧
  (is_Some (predictions sample_ev !! "knn") ↔ "knn" ∈ ["lr"; "rf"; "svm"]) ∧
  (is_Some (results sample_ev !! "knn") ↔ "knn" ∈ ["lr"; "rf"; "svm"]).
Proof.
  assert (Ht : training (0 : rng) sample_clean = Some sample_tr).
  { reflexivity. }
  assert (He : evaluation sample_tr sample_clean = Some sample_ev).
  { reflexivity. }
  split; [exact Ht|]. split; [exact He|].
  exact (dictionaries_have_model_keys _ _ _ _ _ "knn" Ht He).
Defined.

(** X14.  With a positive click count, a key outside the three model keys
    makes the callback raise [KeyError] at the lookup in [predictions]. *)
Theorem update_output_unknown_key `{Externals} (g : rng)
    (data_train data_test : DataFrame) (tr : Training) (ev : Evaluation)
    (n_clicks : Z) (model_type : string) :
  training g data_train = Some tr →
  evaluation tr data_test = Some ev →
  model_type ∉ ["lr"; "rf"; "svm"] → (n_clicks > 0)%Z →
  update_output ev n_clicks model_type = None.
Proof.
  intros Ht He Hkey Hpos.
  pose proof (predictions_key_set _ _ _ _ _ model_type Ht He) as Hp.
  unfold update_output. rewrite bool_decide_eq_true_2 by done.
  destruct (predictions ev !! model_type) as [preds|] eqn:Hl; [|done].
  exfalso. apply Hkey, Hp. by eexists.
Qed.

Lemma update_output_unknown_key_witness :
  training (0 : rng) sample_clean = Some sample_tr ∧
  evaluation sample_tr sample_clean = Some sample_ev ∧
  ("knn" ∉ ["lr"; "rf"; "svm"]) ∧ (1 > 0)%Z ∧
  update_output sample_ev 1 "knn" = None.
Proof.
  assert (Ht : training (0 : rng) sample_clean = Some sample_tr).
  { reflexivity. }
  assert (He : evaluation sample_tr sample_clean = Some sample_ev).
  { reflexivity. }
  assert (Hk : "knn" ∉ ["lr"; "rf"; "svm"]).
  { apply (bool_decide_unpack _). vm_compute. exact I. }
  assert (Hpos : (1 > 0)%Z) by lia.
  split; [exact Ht|]. split; [exact He|]. split; [exact Hk|].
  split; [exact Hpos|].
  exact (update_output_unknown_key 0 sample_clean sample_clean sample_tr
           sample_ev 1 "knn" Ht He Hk Hpos).
Defined.

Lemma metrics_of_same_length (y preds : list float) (m : Metrics) :
  metrics_of y preds = Some m → length preds = length y.
Proof.
  intros Hm. apply metrics_of_inv in Hm as (Hmse & _).
  unfold mean_squared_error in Hmse. by destruct (decide _).
Qed.

(** X15.  Every chart the callback draws is well formed: when both cells
    have returned, whatever the key and the click count, each series of
    the returned figure has as many [y] values as [x] values, namely one
    per test row. *)
Theorem chart_series_aligned `{Externals} (tr : Training)
    (data_test : DataFrame) (ev : Evaluation) (n_clicks : Z)
    (model_type : string) (fig : Figure) (s1 s2 s3 : string) :
  evaluation tr data_test = Some ev →
  update_output ev n_clicks model_type = Some (fig, s1, s2, s3) →
  Forall (λ s, length (sc_x s) = length (y_test ev) ∧
               length (sc_y s) = length (y_test ev))
         (fig_data fig).
Proof.
  intros He Hu. unfold update_output in Hu.
  destruct (bool_decide _).
  - destruct (predictions ev !! model_type) as [preds|] eqn:Hp; [|done].
    destruct (results ev !! model_type) as [m|] eqn:Hr; [|done].
    cbn [mbind option_bind] in Hu. injection Hu as <- _ _ _.
    pose proof (results_of_predictions _ _ _ _ _ _ He Hp Hr) as Hm.
    apply metrics_of_same_length in Hm.
    repeat constructor; simpl; rewrite ?length_seq; done.
  - injection Hu as <- _ _ _. constructor.
Qed.

Lemma chart_series_aligned_witness :
  ∃ fig s1 s2 s3,
    evaluation sample_tr sample_clean = Some sample_ev ∧
    update_output sample_ev 2 "svm" = Some (fig, s1, s2, s3) ∧
    Forall (λ s, length (sc_x s) = length (y_test sample_ev) ∧
                 length (sc_y s) = length (y_test sample_ev))
           (fig_data fig).
Proof.
  assert (He : evaluation sample_tr sample_clean = Some sample_ev).
  { reflexivity. }
  destruct (update_output sample_ev 2 "svm") as [[[[fig s1] s2] s3]|] eqn:Hu;
    [|vm_compute in Hu; discriminate Hu].
  exists fig, s1, s2, s3. split; [exact He|]. split; [reflexivity|].
  exact (chart_series_aligned sample_tr sample_clean sample_ev 2 "svm"
           fig s1 s2 s3 He Hu).
Defined.

(** ** The page *)

Lemma fire_callbacks `{Externals} (ev : Evaluation) (p : prop_id) (pg : page)
    (n : Z) (key : string) :
  p ∈ [("start-button", "n_clicks"); ("model-selector", "value")] →
  pg !! ("start-button", "n_clicks") = Some (PInt n) →
  pg !! ("model-selector", "value") = Some (PStr key) →
  foldl (fire p) pg (callbacks ev)
  = match update_output ev n key with
    | Some (fig, s1, s2, s3) =>
        write_outputs
          [("prediction-graph", "figure"); ("rmse-display", "children");
           ("mse-display", "children"); ("mape-display", "children")]
          [PFig fig; PStr s1; PStr s2; PStr s3] pg
    | None => pg
    end.
Proof.
  intros Hp Hn Hkey. unfold callbacks. cbn [foldl]. unfold fire.
  cbn [cb_inputs cb_run cb_outputs]. rewrite bool_decide_eq_true_2 by done.
  cbn [fmap list_fmap]. rewrite Hn, Hkey. unfold update_output_cb.
  by destruct (update_output ev n key) as [[[[fig s1] s2] s3]|].
Qed.

Lemma outputs_written (pg : page) (fig : Figure) (s1 s2 s3 : string) :
  outputs
    (write_outputs
       [("prediction-graph", "figure"); ("rmse-display", "children");
        ("mse-display", "children"); ("mape-display", "children")]
       [PFig fig; PStr s1; PStr s2; PStr s3] pg)
  = rendering (fig, s1, s2, s3).
Proof.
  unfold outputs, write_outputs, rendering. cbn [zip zip_with foldl fmap list_fmap fst snd].
  by simplify_map_eq.
Qed.

Lemma outputs_insert_input (pg : page) (p : prop_id) (v : prop_value) :
  p ∈ [("start-button", "n_clicks"); ("model-selector", "value")] →
  outputs (<[p := v]> pg) = outputs pg.
Proof.
  intros Hp. unfold outputs. cbn [fmap list_fmap].
  repeat (apply elem_of_cons in Hp as [->|Hp]); [| |by apply elem_of_nil in Hp];
    by simplify_map_eq.
Qed.

Lemma click_start_page `{Externals} (ev : Evaluation) (pg : page)
    (n : Z) (key : string) :
  pg !! ("start-button", "n_clicks") = Some (PInt n) →
  pg !! ("model-selector", "value") = Some (PStr key) →
  click (callbacks ev) "start-button" pg
  = match update_output ev (n + 1) key with
    | Some (fig, s1, s2, s3) =>
        write_outputs
          [("prediction-graph", "figure"); ("rmse-display", "children");
           ("mse-display", "children"); ("mape-display", "children")]
          [PFig fig; PStr s1; PStr s2; PStr s3]
          (<[("start-button", "n_clicks") := PInt (n + 1)]> pg)
    | None => <[("start-button", "n_clicks") := PInt (n + 1)]> pg
    end.
Proof.
  intros Hn Hkey. unfold click, set_prop. rewrite Hn.
  apply fire_callbacks.
  - apply list_elem_of_here.
  - apply lookup_insert_eq.
  - by rewrite lookup_insert_ne.
Qed.

(** X16.  A click on Start, on a page whose Start count is [n] and whose
    dropdown holds [key], runs the callback with the count [n + 1] and the
    key: the four outputs then show what it returned, and stay as they
    were when it raised. *)
Theorem start_click_outputs `{Externals} (ev : Evaluation) (pg : page)
    (n : Z) (key : string) :
  pg !! ("start-button", "n_clicks") = Some (PInt n) →
  pg !! ("model-selector", "value") = Some (PStr key) →
  outputs (click (callbacks ev) "start-button" pg)
  = match update_output ev (n + 1) key with
    | Some r => rendering r
    | None => outputs pg
    end.
Proof.
  intros Hn Hkey. rewrite (click_start_page ev pg n key Hn Hkey).
  destruct (update_output ev (n + 1) key) as [[[[fig s1] s2] s3]|].
  - apply outputs_written.
  - apply outputs_insert_input, list_elem_of_here.
Qed.

Lemma start_click_outputs_witness :
  initial_page !! ("start-button", "n_clicks") = Some (PInt 0) ∧
  initial_page !! ("model-selector", "value") = Some (PStr "lr") ∧
  outputs (click (callbacks sample_ev) "start-button" initial_page)
  = match update_output sample_ev (0 + 1) "lr" with
    | Some r => rendering r
    | None => outputs initial_page
    end.
Proof.
  assert (Hn : initial_page !! ("start-button", "n_clicks") = Some (PInt 0))
    by reflexivity.
  assert (Hk : initial_page !! ("model-selector", "value") = Some (PStr "lr"))
    by reflexivity.
  split; [exact Hn|]. split; [exact Hk|].
  exact (start_click_outputs sample_ev initial_page 0 "lr" Hn Hk).
Defined.

(** X17.  Choosing [key] in the dropdown, on a page whose Start count is
    [n], runs the callback with that count and the new key: the four
    outputs show what it returned, and stay as they were when it raised
    (a key without stored predictions, after a click). *)
Theorem select_model_outputs `{Externals} (ev : Evaluation) (pg : page)
    (n : Z) (key : string) :
  pg !! ("start-button", "n_clicks") = Some (PInt n) →
  outputs (select_model (callbacks ev) key pg)
  = match update_output ev n key with
    | Some r => rendering r
    | None => outputs pg
    end.
Proof.
  intros Hn. unfold select_model, set_prop.
  rewrite (fire_callbacks ev _ _ n key).
  - destruct (update_output ev n key) as [[[[fig s1] s2] s3]|].
    + apply outputs_written.
    + apply outputs_insert_input, list_elem_of_further, list_elem_of_here.
  - apply list_elem_of_further, list_elem_of_here.
  - by rewrite lookup_insert_ne.
  - apply lookup_insert_eq.
Qed.

Lemma select_model_outputs_witness :
  initial_page !! ("start-button", "n_clicks") = Some (PInt 0) ∧
  outputs (select_model (callbacks sample_ev) "rf" initial_page)
  = match update_output sample_ev 0 "rf" with
    | Some r => rendering r
    | None => outputs initial_page
    end.
Proof.
  assert (Hn : initial_page !! ("start-button", "n_clicks") = Some (PInt 0))
    by reflexivity.
  split; [exact Hn|].
  exact (select_model_outputs sample_ev initial_page 0 "rf" Hn).
Defined.

(** X18.  Before the first click on Start the page shows nothing: on a
    page whose Start count is not positive, choosing any key in the
    dropdown, even one without stored predictions, puts the empty chart
    and three empty texts on the page. *)
Theorem select_before_start `{Externals} (ev : Evaluation) (pg : page)
    (n : Z) (key : string) :
  pg !! ("start-button", "n_clicks") = Some (PInt n) → (n ≤ 0)%Z →
  outputs (select_model (callbacks ev) key pg)
  = rendering (empty_figure, EmptyString, EmptyString, EmptyString).
Proof.
  intros Hn Hle. unfold select_model, set_prop.
  rewrite (fire_callbacks ev _ _ n key).
  - unfold update_output. rewrite bool_decide_eq_false_2 by lia.
    apply outputs_written.
  - apply list_elem_of_further, list_elem_of_here.
  - by rewrite lookup_insert_ne.
  - apply lookup_insert_eq.
Qed.

Lemma select_before_start_witness :
  initial_page !! ("start-button", "n_clicks") = Some (PInt 0) ∧ (0 ≤ 0)%Z ∧
  outputs (select_model (callbacks sample_ev) "knn" initial_page)
  = rendering (empty_figure, EmptyString, EmptyString, EmptyString).
Proof.
  assert (Hn : initial_page !! ("start-button", "n_clicks") = Some (PInt 0))
    by reflexivity.
  assert (Hle : (0 ≤ 0)%Z) by lia.
  split; [exact Hn|]. split; [exact Hle|].
  exact (select_before_start sample_ev initial_page 0 "knn" Hn Hle).
Defined.

(** A click on Start adds one to its count and leaves the dropdown alone. *)
Lemma start_click_inputs `{Externals} (ev : Evaluation) (pg : page)
    (n : Z) (key : string) :
  pg !! ("start-button", "n_clicks") = Some (PInt n) →
  pg !! ("model-selector", "value") = Some (PStr key) →
  click (callbacks ev) "start-button" pg !! ("start-button", "n_clicks")
  = Some (PInt (n + 1)) ∧
  click (callbacks ev) "start-button" pg !! ("model-selector", "value")
  = Some (PStr key).
Proof.
  intros Hn Hkey. rewrite (click_start_page ev pg n key Hn Hkey).
  destruct (update_output ev (n + 1) key) as [[[[fig s1] s2] s3]|];
    unfold write_outputs; cbn [zip zip_with foldl fst snd];
    by simplify_map_eq.
Qed.

(** X19.  Further clicks on Start change nothing that is shown: on a page
    whose Start count is not negative, the outputs after any number of
    clicks on Start, at least one, are those after the first click. *)
Theorem repeated_start_clicks `{Externals} (ev : Evaluation) (pg : page)
    (n : Z) (key : string) (k : nat) :
  pg !! ("start-button", "n_clicks") = Some (PInt n) → (0 ≤ n)%Z →
  pg !! ("model-selector", "value") = Some (PStr key) →
  outputs (Nat.iter (S k) (click (callbacks ev) "start-button") pg)
  = outputs (click (callbacks ev) "start-button" pg).
Proof.
  intros Hn Hpos Hkey.
  assert (∀ j,
    let pg' := Nat.iter (S j) (click (callbacks ev) "start-button") pg in
    pg' !! ("start-button", "n_clicks") = Some (PInt (n + 1 + Z.of_nat j)) ∧
    pg' !! ("model-selector", "value") = Some (PStr key) ∧
    outputs pg' = outputs (click (callbacks ev) "start-button" pg)) as Hall.
  { induction j as [|j (Hn' & Hkey' & Hout)]; cbn zeta.
    - destruct (start_click_inputs ev pg n key Hn Hkey) as [Hn1 Hk1].
      cbn [Nat.iter]. rewrite Z.add_0_r. done.
    - change (Nat.iter (S (S j)) (click (callbacks ev) "start-button") pg)
        with (click (callbacks ev) "start-button"
                (Nat.iter (S j) (click (callbacks ev) "start-button") pg)).
      destruct (start_click_inputs ev _ _ key Hn' Hkey') as [Hn2 Hk2].
      split; [|split; [done|]].
      + rewrite Hn2. do 2 f_equal. lia.
      + rewrite (click_start_page ev _ _ key Hn' Hkey').
        assert (update_output ev (n + 1 + Z.of_nat j + 1) key
                = update_output ev (n + 1) key) as ->.
        { unfold update_output. rewrite !bool_decide_eq_true_2 by lia. done. }
        destruct (update_output ev (n + 1) key) as [[[[fig s1] s2] s3]|]
          eqn:Hu.
        * rewrite (click_start_page ev pg n key Hn Hkey), Hu.
          by rewrite !outputs_written.
        * rewrite outputs_insert_input by apply list_elem_of_here. done. }
  apply Hall.
Qed.

Lemma repeated_start_clicks_witness :
  initial_page !! ("start-button", "n_clicks") = Some (PInt 0) ∧ (0 ≤ 0)%Z ∧
  initial_page !! ("model-selector", "value") = Some (PStr "lr") ∧
  outputs (Nat.iter (S 3) (click (callbacks sample_ev) "start-button")
             initial_page)
  = outputs (click (callbacks sample_ev) "start-button" initial_page).
Proof.
  assert (Hn : initial_page !! ("start-button", "n_clicks") = Some (PInt 0))
    by reflexivity.
  assert (Hk : initial_page !! ("model-selector", "value") = Some (PStr "lr"))
    by reflexivity.
  assert (Hpos : (0 ≤ 0)%Z) by lia.
  split; [exact Hn|]. split; [exact Hpos|]. split; [exact Hk|].
  exact (repeated_start_clicks sample_ev initial_page 0 "lr" 3 Hn Hpos Hk).
Defined.

(** ** A gap left in the test target *)

Lemma series_to_floats_missing (ys : Series) (y : list float) :
  series_to_floats ys = Some y → None ∈ ys → forallb is_finite y = false.
Proof.
  unfold series_to_floats. intros Hy Hin. apply mapM_Some in Hy.
  induction Hy as [|c x ys y Hc _ IH]; [by apply elem_of_nil in Hin|].
  simpl. apply elem_of_cons in Hin as [<-|Hin].
  - simpl in Hc. by injection Hc as <-.
  - rewrite (IH Hin). apply andb_false_r.
Qed.

Lemma metrics_of_finite_targets (y preds : list float) (m : Metrics) :
  metrics_of y preds = Some m → forallb is_finite y = true.
Proof.
  intros Hm. apply metrics_of_inv in Hm as (Hmse & _).
  unfold mean_squared_error in Hmse.
  destruct (decide _); [|done]. destruct y as [|y0 y]; [done|].
  by destruct (forallb is_finite (y0 :: y)).
Qed.

(** X20.  Forward fill leaves a gap at the top of a column unfilled, and
    such a gap in the test target stops the evaluation: when training has
    returned and the target column of the test table has a missing cell,
    the evaluation cell raises (at the latest in the first mean squared
    error), and no metric is produced. *)
Theorem evaluation_missing_target `{Externals} (g : rng)
    (data_train data_test : DataFrame) (tr : Training) (ys : Series) :
  training g data_train = Some tr →
  get_column data_test target = Some ys → None ∈ ys →
  evaluation tr data_test = None.
Proof.
  intros Ht Hys Hin.
  destruct (evaluation tr data_test) as [ev|] eqn:He; [|done]. exfalso.
  apply training_inv in Ht as (_ & _ & _ & _ & _ & Hkeys).
  apply evaluation_inv in He
    as (_ & _ & ps & rs & ys' & Hpred & Hys' & Hy & Hev & _).
  rewrite Hys in Hys'. injection Hys' as <-.
  pose proof (series_to_floats_missing _ _ Hy Hin) as Hnf.
  apply predict_all_inv in Hpred.
  apply (Forall2_keys (λ e p, predict e (X_test_scaled ev) = Some p)) in Hpred.
  rewrite Hkeys in Hpred.
  apply evaluate_all_inv in Hev.
  destruct Hev as [|p r ps rs [_ Hm] _]; [done|].
  apply metrics_of_finite_targets in Hm. congruence.
Qed.

Lemma evaluation_missing_target_witness :
  let data_test :=
    mkDataFrame 2 ((λ k, (k, [None; num 3])) <$> columns) in
  training (0 : rng) sample_clean = Some sample_tr ∧
  get_column data_test target = Some [None; num 3] ∧
  None ∈ [None; num 3] ∧
  evaluation sample_tr data_test = None.
Proof.
  intros data_test.
  assert (Ht : training (0 : rng) sample_clean = Some sample_tr).
  { reflexivity. }
  assert (Hys : get_column data_test target = Some [None; num 3])
    by reflexivity.
  assert (Hin : None ∈ [None; num 3]) by apply list_elem_of_here.
  split; [exact Ht|]. split; [exact Hys|]. split; [exact Hin|].
  exact (evaluation_missing_target 0 sample_clean data_test sample_tr _
           Ht Hys Hin).
Defined.
